(** * Hooter: a prefixable event bus with wildcard hooks

    A shallow embedding of [src/Hooter.js]: the constructor, [match],
    [lift], [error], [complete], the hooking methods, [unhook], [next],
    [_toot] and its ten shorthands, [register], [prefix] and
    [createEvent].  ([_subscribe] and [filter] only forward to the
    subscription machinery of rxjs and are left out.)

    The bus extends an rxjs [Subject] and hands the collected hooks to
    the [corrie] sequencing library; both are outside the repository file
    and enter the model as an interface ([Externals]).  What they run,
    subscribers and hooks, is code of the user of the bus: it may call
    the bus and write to the envelope, so every call into the interface
    takes the whole state and gives a state back.  The hook store
    ([./HookStore]) and the segment matcher ([wildcard-match]) are not
    part of the file either and are modelled from the written
    specification.

    JavaScript values are modelled as far as the bus inspects them:
    [typeof], truthiness, own properties of heap objects, and the members
    an object literal inherits, which matter for the registry. *)

From Stdlib Require Import ZArith Ascii String List Bool Lia.
From stdpp Require Import base option list strings gmap pretty.

Local Open Scope string_scope.
Local Open Scope list_scope.

(** ** JavaScript values *)

Module JS.

(** The values the bus inspects.  Numbers are tested for truthiness and,
    when one is given as an event type, printed as a property key, so
    integers and NaN suffice.  Objects and arrays live in a heap and are
    referred to by location, which keeps identity and aliasing
    visible. *)
Inductive Value : Type :=
| VUndefined
| VNull
| VBool (b : bool)
| VNum (n : Z)
| VNaN
| VStr (s : string)
| VFun (f : nat)
| VBound (target this : Value)
| VObj (l : nat).

Inductive Obj : Type :=
| OPlain (props : gmap string Value)
| OArray (elems : list Value).

(** Thrown values: the two error classes the bus raises itself, and
    whatever an outside capability throws. *)
Inductive Exn : Type :=
| TypeError (msg : string)
| Error (msg : string)
| Foreign (v : Value).

(** [e instanceof Error] and [e instanceof TypeError]. *)
Definition instanceof_Error (e : Exn) : bool :=
  match e with TypeError _ | Error _ => true | Foreign _ => false end.

Definition instanceof_TypeError (e : Exn) : bool :=
  match e with TypeError _ => true | _ => false end.

Definition typeof (v : Value) : string :=
  match v with
  | VUndefined => "undefined"
  | VNull => "object"
  | VBool _ => "boolean"
  | VNum _ | VNaN => "number"
  | VStr _ => "string"
  | VFun _ | VBound _ _ => "function"
  | VObj _ => "object"
  end.

(** ToBoolean. *)
Definition truthy (v : Value) : bool :=
  match v with
  | VUndefined | VNull | VNaN => false
  | VBool b => b
  | VNum n => negb (n =? 0)%Z
  | VStr s => negb (s =? "")
  | VFun _ | VBound _ _ | VObj _ => true
  end.

(** [ToString] of a primitive, as the language defines it; an integer
    prints in decimal below 10^21.  An object or a function is printed
    by code of its own, and a larger number in a notation that is not
    modelled. *)
Definition ToString_primitive (v : Value) : option string :=
  match v with
  | VStr s => Some s
  | VUndefined => Some "undefined"
  | VNull => Some "null"
  | VBool b => Some (if b then "true" else "false")
  | VNaN => Some "NaN"
  | VNum n => if (Z.abs n <? 10 ^ 21)%Z then Some (pretty n) else None
  | VFun _ | VBound _ _ | VObj _ => None
  end.

(** [arr.includes(v)] for an array of string literals. *)
Definition includes (arr : list string) (v : Value) : bool :=
  match v with
  | VStr s => existsb (String.eqb s) arr
  | _ => false
  end.

(** Own property read.  The bus reads [type], [mode], [cb] and [args]
    only, and neither [Object.prototype] nor [Array.prototype] defines
    any of them, so a missing own property reads as [undefined]. *)
Definition prop (o : Obj) (k : string) : Value :=
  match o with
  | OPlain props => default VUndefined (props !! k)
  | OArray _ => VUndefined
  end.

(** The property names every object literal inherits from
    [Object.prototype]; each of them reads as a truthy value. *)
Definition Object_prototype_names : list string :=
  [ "constructor"; "hasOwnProperty"; "isPrototypeOf"; "propertyIsEnumerable";
    "toLocaleString"; "toString"; "valueOf"; "__proto__";
    "__defineGetter__"; "__defineSetter__"; "__lookupGetter__";
    "__lookupSetter__" ].

Definition inherited (k : string) : bool :=
  existsb (String.eqb k) Object_prototype_names.

(** A double quote, for the error messages that contain one. *)
Definition dq : string := String (ascii_of_nat 34) EmptyString.

End JS.

Import JS.

(** ** Segment wildcards *)

Module Wildcard.

(** [s.split(sep)] for a one-character separator. *)
Fixpoint split (sep : ascii) (s : string) : list string :=
  match s with
  | EmptyString => [EmptyString]
  | String c rest =>
      if Ascii.eqb c sep then EmptyString :: split sep rest
      else match split sep rest with
           | [] => [String c EmptyString]
           | seg :: segs => String c seg :: segs
           end
  end.

(** Modelled from the spec: the [wildcard-match] package is not in the
    repository file.  Both samples are cut into segments; a [*] segment
    stands for exactly one segment of the other sample, a [**] segment for
    zero or more of them, and any other segment only for itself.  The
    comparison treats its two samples alike. *)
Fixpoint matchSegments (xs : list string) : list string -> bool :=
  match xs with
  | [] =>
      fix only_globs (ys : list string) : bool :=
        match ys with
        | [] => true
        | y :: ys' => (y =? "**") && only_globs ys'
        end
  | x :: xs' =>
      fix against (ys : list string) : bool :=
        match ys with
        | [] => (x =? "**") && matchSegments xs' []
        | y :: ys' =>
            if x =? "**" then matchSegments xs' ys || against ys'
            else if y =? "**" then against ys' || matchSegments xs' ys
            else ((x =? "*") || (y =? "*") || (x =? y))
                 && matchSegments xs' ys'
        end
  end.

(** Modelled from the spec: [wildcardMatch(delimiter, a, b)]. *)
Definition wildcardMatch (delimiter : ascii) (a b : string) : bool :=
  matchSegments (split delimiter a) (split delimiter b).

(** The segment-wildcard rule as the specification words it, pattern
    first: [*] takes exactly one segment, [**] takes zero or more, a
    literal takes itself. *)
Inductive rule : list string -> list string -> Prop :=
| rule_end : rule [] []
| rule_star ps t ts : rule ps ts -> rule ("*" :: ps) (t :: ts)
| rule_glob_none ps ts : rule ps ts -> rule ("**" :: ps) ts
| rule_glob_more ps t ts : rule ("**" :: ps) ts -> rule ("**" :: ps) (t :: ts)
| rule_literal p ps ts :
    p <> "*" -> p <> "**" -> rule ps ts -> rule (p :: ps) (p :: ts).

(** A concrete segment list contains no wildcard segment. *)
Definition concrete (ts : list string) : Prop :=
  Forall (fun t => t <> "*" /\ t <> "**") ts.

End Wildcard.

(** ** The hook store *)

Module HookStore.

(** Modelled from the spec: a hook is an id, a pattern and a function. *)
Record Hook : Type := mkHook {
  id : nat;
  pattern : string;
  fn : Value
}.

(** Modelled from the spec: [./HookStore] is not in the repository file.
    A store keeps its hooks in insertion order, together with the matcher
    and the ordering flag its constructor received and a counter for
    fresh ids. *)
Record t : Type := mk {
  matcher : string -> string -> bool;
  reversed : bool;
  hooks : list Hook;
  counter : nat
}.

(** Modelled from the spec: [new HookStore(match, reverse)]. *)
Definition create (m : string -> string -> bool) (reverse : bool) : t :=
  {| matcher := m; reversed := reverse; hooks := []; counter := 0 |}.

(** Modelled from the spec: [put(pattern, fn)] rejects a pattern that is
    not a non-empty string and a [fn] that is not callable with a
    [TypeError]; otherwise it appends the hook and returns its id. *)
Definition put (p f : Value) (s : t) : Exn + (nat * t) :=
  match p with
  | VStr pat =>
      if pat =? "" then inl (TypeError "A pattern must be a non-empty string")
      else if negb (typeof f =? "function")
      then inl (TypeError "A hook must be a function")
      else
        let h := {| id := counter s; pattern := pat; fn := f |} in
        inr (counter s,
             {| matcher := matcher s; reversed := reversed s;
                hooks := hooks s ++ [h]; counter := S (counter s) |})
  | _ => inl (TypeError "A pattern must be a non-empty string")
  end.

(** Modelled from the spec: [get(eventType)] returns the hooks whose
    pattern matches, in insertion order, or in reverse insertion order
    for a store created with the flag.  The matcher receives the event
    type first and the stored pattern second. *)
Definition get (eventType : string) (s : t) : list Hook :=
  let found := List.filter (fun h => matcher s eventType (pattern h)) (hooks s) in
  if reversed s then rev found else found.

(** Modelled from the spec: [del(id)] removes the hook with that id if
    there is one and does nothing otherwise. *)
Definition del (needle : nat) (s : t) : t :=
  {| matcher := matcher s; reversed := reversed s;
     hooks := List.filter (fun h => negb (id h =? needle)%nat) (hooks s);
     counter := counter s |}.

End HookStore.

(** ** State, failures and the outside capabilities *)

(** [settings ? corrie(settings) : corrie]. *)
Inductive Corrie : Type :=
| CorrieDefault
| CorrieWith (settings : Value).

(** Which function of the sequencing capability is called:
    [this.corrie] itself or [this.corrie[mode]]. *)
Inductive Entry : Type :=
| EntryItself
| EntryMember (key : Value).

Record RegisteredEvent : Type := mkRegistered { mode : Value }.

Record Hooter : Type := mkHooter {
  corrie : Corrie;
  hookStoreBefore : HookStore.t;
  hookStore : HookStore.t;
  hookStoreAfter : HookStore.t;
  events : gmap string RegisteredEvent;
  operator : Value;
  source : option nat;
  _prefix : option string
}.

Section Bus.

(** The state of everything outside the file: subscribers of the
    [Subject], whatever the hooks touch. *)
Context {World : Type}.

(** Bus instances and heap objects are allocated at the end of their
    list and referred to by index. *)
Record State : Type := mkState {
  buses : list Hooter;
  objs : list Obj;
  world : World
}.

(** A call either returns, throws, or goes wrong.  [Wrong] is not a
    JavaScript behaviour: it marks a reference to nothing, exhausted
    fuel, and a lookup in the hook store for an event type that is no
    string, about which the specification of the store is silent. *)
Inductive Outcome (A : Type) : Type :=
| Ret (a : A)
| Throw (e : Exn)
| Wrong.
Global Arguments Ret {A} a.
Global Arguments Throw {A} e.
Global Arguments Wrong {A}.

Definition M (A : Type) : Type := State -> Outcome A * State.

Definition ret {A} (a : A) : M A := fun s => (Ret a, s).
Definition throw {A} (e : Exn) : M A := fun s => (Throw e, s).
Definition wrong {A} : M A := fun s => (Wrong, s).

Definition bind {A B} (m : M A) (k : A -> M B) : M B :=
  fun s =>
    match m s with
    | (Ret a, s') => k a s'
    | (Throw e, s') => (Throw e, s')
    | (Wrong, s') => (Wrong, s')
    end.

(** Code outside the file returns or throws. *)
Inductive Result (A : Type) : Type :=
| Returned (a : A)
| Raised (e : Exn).
Global Arguments Returned {A} a.
Global Arguments Raised {A} e.

Definition outcome {A} (r : Result A) : Outcome A :=
  match r with
  | Returned a => Ret a
  | Raised e => Throw e
  end.

(** What the bus calls into: [super.next], which runs the subscribers;
    the sequencing capability; the call of the function that capability
    returns, which runs the hooks; and the conversion to a string of a
    value that is not a primitive, which runs its [toString].  Each of
    them may hook, unhook, register, emit, and write to the envelope:
    they take the state as it is and return the state they leave. *)
Record Externals : Type := mkExternals {
  Subject_next : nat -> Value -> State -> Result unit * State;
  corrie_compose : Corrie -> Entry -> list Value -> State -> Result Value * State;
  call_function : Value -> list Value -> State -> Result Value * State;
  to_string : Value -> State -> Result string * State
}.

Definition on_state {A} (f : State -> Result A * State) : M A :=
  fun s => let '(r, s') := f s in (outcome r, s').

Definition get_bus (r : nat) : M Hooter :=
  fun s => match buses s !! r with
           | Some b => (Ret b, s)
           | None => (Wrong, s)
           end.

Definition set_bus (r : nat) (b : Hooter) : M unit :=
  fun s => match buses s !! r with
           | Some _ => (Ret tt, {| buses := <[r := b]> (buses s);
                                   objs := objs s; world := world s |})
           | None => (Wrong, s)
           end.

Definition new_bus (b : Hooter) : M nat :=
  fun s => (Ret (length (buses s)),
            {| buses := buses s ++ [b]; objs := objs s; world := world s |}).

Definition alloc (o : Obj) : M Value :=
  fun s => (Ret (VObj (length (objs s))),
            {| buses := buses s; objs := objs s ++ [o]; world := world s |}).

(** [v[k]] for a value that passed the object test. *)
Definition get_prop (v : Value) (k : string) : M Value :=
  fun s => match v with
           | VObj l => match objs s !! l with
                       | Some o => (Ret (prop o k), s)
                       | None => (Wrong, s)
                       end
           | _ => (Wrong, s)
           end.

(** [...v]: arrays and strings are iterable, nothing else the model has
    is.  (A string is cut into its characters.) *)
Definition spread (v : Value) : M (list Value) :=
  fun s => match v with
           | VObj l => match objs s !! l with
                       | Some (OArray elems) => (Ret elems, s)
                       | Some (OPlain _) =>
                           (Throw (TypeError "object is not iterable"), s)
                       | None => (Wrong, s)
                       end
           | VStr str =>
               (Ret (map (fun c => VStr (String c EmptyString))
                         (list_ascii_of_string str)), s)
           | _ => (Throw (TypeError "value is not iterable"), s)
           end.

End Bus.

Global Arguments State : clear implicits.
Global Arguments Externals : clear implicits.
Global Arguments M : clear implicits.

Notation "x <- m ;;; k" := (bind m (fun x => k))
  (at level 100, m at next level, right associativity).
Notation "m ;;; k" := (bind m (fun _ => k))
  (at level 100, right associativity).

(** ** The bus *)

Definition MODES : list string := ["auto"; "asIs"; "sync"; "async"].

(** [match(a, b)]: [wildcardMatch('.', a, b)]. *)
Definition match_ (a b : string) : bool := Wildcard.wildcardMatch "." a b.

(** The three stores of an instance, selected the way the hooking methods
    pass them to [_hook]. *)
Inductive Phase : Type := Before | Main | After.

Definition store_of (p : Phase) (b : Hooter) : HookStore.t :=
  match p with
  | Before => hookStoreBefore b
  | Main => hookStore b
  | After => hookStoreAfter b
  end.

Definition with_store (p : Phase) (st : HookStore.t) (b : Hooter) : Hooter :=
  {| corrie := corrie b;
     hookStoreBefore := match p with Before => st | _ => hookStoreBefore b end;
     hookStore := match p with Main => st | _ => hookStore b end;
     hookStoreAfter := match p with After => st | _ => hookStoreAfter b end;
     events := events b; operator := operator b;
     source := source b; _prefix := _prefix b |}.

Definition with_events (ev : gmap string RegisteredEvent) (b : Hooter) : Hooter :=
  {| corrie := corrie b; hookStoreBefore := hookStoreBefore b;
     hookStore := hookStore b; hookStoreAfter := hookStoreAfter b;
     events := ev; operator := operator b;
     source := source b; _prefix := _prefix b |}.

Definition with_operator (op : Value) (b : Hooter) : Hooter :=
  {| corrie := corrie b; hookStoreBefore := hookStoreBefore b;
     hookStore := hookStore b; hookStoreAfter := hookStoreAfter b;
     events := events b; operator := op;
     source := source b; _prefix := _prefix b |}.

Definition with_source (src : nat) (b : Hooter) : Hooter :=
  {| corrie := corrie b; hookStoreBefore := hookStoreBefore b;
     hookStore := hookStore b; hookStoreAfter := hookStoreAfter b;
     events := events b; operator := operator b;
     source := Some src; _prefix := _prefix b |}.

Definition with_prefix (p : string) (b : Hooter) : Hooter :=
  {| corrie := corrie b; hookStoreBefore := hookStoreBefore b;
     hookStore := hookStore b; hookStoreAfter := hookStoreAfter b;
     events := events b; operator := operator b;
     source := source b; _prefix := Some p |}.

(** What [this.events[eventType]] reads: an own entry, a member that
    every object literal inherits, or [undefined]. *)
Inductive Member : Type :=
| Own (re : RegisteredEvent)
| Inherited
| Missing.

Definition events_get (ev : gmap string RegisteredEvent) (k : string) : Member :=
  match ev !! k with
  | Some re => Own re
  | None => if inherited k then Inherited else Missing
  end.

Definition member_truthy (m : Member) : bool :=
  match m with Own _ | Inherited => true | Missing => false end.

(** [registeredEvent.mode]; the inherited members have no such property. *)
Definition member_mode (m : Member) : Value :=
  match m with Own re => mode re | _ => VUndefined end.

(** [if (this._prefix)]: an unset and an empty prefix are both falsy. *)
Definition prefix_truthy (p : option string) : bool :=
  match p with Some str => negb (str =? "") | None => false end.

(** [v === 'lit']. *)
Definition is_string (v : Value) (lit : string) : bool :=
  match v with VStr s => s =? lit | _ => false end.

(** The fields [constructor] sets.  A store created without the second
    argument is not reversed. *)
Definition new_Hooter (settings : Value) : Hooter :=
  {| corrie := if truthy settings then CorrieWith settings else CorrieDefault;
     hookStoreBefore := HookStore.create match_ false;
     hookStore := HookStore.create match_ false;
     hookStoreAfter := HookStore.create match_ true;
     events := ∅; operator := VUndefined;
     source := None; _prefix := None |}.

Section Methods.

Context {World : Type}.
Variable X : Externals World.


(** [new Hooter(settings)]. *)
Definition constructor (settings : Value) : M World nat :=
  new_bus (new_Hooter settings).

(** [lift(operator)], lines 22 to 34: [new this.constructor()] is a bus
    built without settings. *)
Definition lift (this : nat) (op : Value) : M World nat :=
  _ <- get_bus this;;;
  instance <- constructor VUndefined;;;
  (if truthy op
   then b <- get_bus instance;;; set_bus instance (with_operator op b)
   else ret tt);;;
  b <- get_bus instance;;;
  set_bus instance (with_source this b);;;
  ret instance.

(** [_hook], lines 60 to 73, with [arguments.length] made explicit.  A
    parameter for which no argument was passed is [undefined]; for
    [hookStore] that makes [hookStore.put] a [TypeError] of the engine,
    whose message is the engine's. *)
Definition _hook (this : nat) (arguments_length : nat)
    (eventType hook : Value) (hookStore : Phase) : M World nat :=
  let eventType :=
    if (1 <=? arguments_length)%nat then eventType else VUndefined in
  let hook := if (2 <=? arguments_length)%nat then hook else VUndefined in
  given <-
    (if (arguments_length =? 1)%nat then ret (VStr "**", eventType)
     else if negb (typeof eventType =? "string")
     then throw (TypeError "An event type must be a string")
     else ret (eventType, hook));;;
  let '(eventType, hook) := given in
  if negb (typeof hook =? "function")
  then throw (TypeError "A hook must be a function")
  else if (arguments_length <? 3)%nat
  then throw (TypeError "Cannot read properties of undefined (reading 'put')")
  else
    self <- get_bus this;;;
    match HookStore.put eventType hook (store_of hookStore self) with
    | inl e => throw e
    | inr (handle, st) =>
        set_bus this (with_store hookStore st self);;;
        ret handle
    end.

(** [hook], [hookStart] and [hookEnd], lines 75 to 85, each call [_hook]
    with three arguments. *)
Definition hook (this : nat) (eventType hook : Value) : M World nat :=
  _hook this 3 eventType hook Main.

Definition hookStart (this : nat) (eventType hook : Value) : M World nat :=
  _hook this 3 eventType hook Before.

Definition hookEnd (this : nat) (eventType hook : Value) : M World nat :=
  _hook this 3 eventType hook After.

(** [this.<store>.del(needle)]. *)
Definition del_in (this : nat) (p : Phase) (needle : nat) : M World unit :=
  self <- get_bus this;;;
  set_bus this (with_store p (HookStore.del needle (store_of p self)) self).

(** [unhook(needle)], lines 87 to 91. *)
Definition unhook (this : nat) (needle : nat) : M World Value :=
  del_in this Before needle;;;
  del_in this Main needle;;;
  del_in this After needle;;;
  ret VUndefined.

(** [Object.assign({}, event)] for a plain object.  (An array does not
    get this far: it has no [type].) *)
Definition Object_assign_fresh (event : Value) : M World Value :=
  fun s =>
    match event with
    | VObj l => match objs s !! l with
                | Some (OPlain props) => alloc (OPlain props) s
                | _ => (Wrong, s)
                end
    | _ => (Wrong, s)
    end.

(** [v[k] = x] on a plain object. *)
Definition set_prop (v : Value) (k : string) (x : Value) : M World unit :=
  fun s =>
    match v with
    | VObj l => match objs s !! l with
                | Some (OPlain props) =>
                    (Ret tt, {| buses := buses s;
                                objs := <[l := OPlain (<[k := x]> props)]> (objs s);
                                world := world s |})
                | _ => (Wrong, s)
                end
    | _ => (Wrong, s)
    end.

(** The list that lines 123 to 133 of [next] build from an instance, an
    event type and a callback: the matching hooks of the three stores,
    each [fn] bound to the event, and the callback if it is truthy. *)
Definition handlers_for (self : Hooter) (event : Value) (type : string)
    (cb : Value) : list Value :=
  let beforeHooks := HookStore.get type (hookStoreBefore self) in
  let hooks := HookStore.get type (hookStore self) in
  let afterHooks := HookStore.get type (hookStoreAfter self) in
  let handlers :=
    map (fun h => VBound (HookStore.fn h) event)
        ((beforeHooks ++ hooks) ++ afterHooks) in
  if truthy cb then handlers ++ [cb] else handlers.

(** Lines 123 to 133 of [next]: the stores of the instance and [type]
    and [cb] of the event are read here, after the subscribers have
    run. *)
Definition collect (this : nat) (event : Value) : M World (list Value) :=
  self <- get_bus this;;;
  type <- get_prop event "type";;;
  match type with
  | VStr ty =>
      cb <- get_prop event "cb";;;
      ret (handlers_for self event ty cb)
  | _ => wrong
  end.

(** [this.corrie] for the mode [auto], [this.corrie[event.mode]] for any
    other. *)
Definition entry_of (mode : Value) : Entry :=
  if is_string mode "auto" then EntryItself else EntryMember mode.

(** Lines 135 to 141 of [next]: nothing for no handlers, the
    sequencing capability otherwise.  The callee is evaluated before the
    arguments: [event.args] is read and spread once the capability has
    returned the composed function. *)
Definition invoke (this : nat) (event : Value) (handlers : list Value)
    : M World Value :=
  if (length handlers =? 0)%nat then ret VUndefined
  else
    mode <- get_prop event "mode";;;
    self <- get_bus this;;;
    composed <-
      on_state (corrie_compose X (corrie self) (entry_of mode) handlers);;;
    args <- get_prop event "args";;;
    argv <- spread args;;;
    on_state (call_function X composed argv).

(** Lines 121 to 141 of [next]: delivery to the subscribers, then the
    handlers. *)
Definition dispatch (this : nat) (event : Value) : M World Value :=
  on_state (Subject_next X this event);;;
  handlers <- collect this event;;;
  invoke this event handlers.

(** Lines 112 to 115 of [next]: under a truthy prefix the event becomes
    a copy with the prefixed type. *)
Definition apply_prefix (self : Hooter) (event : Value) (ty : string)
    : M World Value :=
  if prefix_truthy (_prefix self)
  then
    copy <- Object_assign_fresh event;;;
    set_prop copy "type" (VStr (default "" (_prefix self) +:+ "." +:+ ty));;;
    ret copy
  else ret event.

(** The body of [next(event)], lines 93 to 142, with [this.source.next]
    as [source_next].  [typeof v !== 'string'] is the case analysis on
    [v]: only [VStr] has that type. *)
Definition next_body (source_next : nat -> Value -> M World Value)
    (this : nat) (event : Value) : M World Value :=
  if negb (truthy event) || negb (typeof event =? "object")
  then throw (TypeError "An event must be an object")
  else
    type <- get_prop event "type";;;
    match type with
    | VStr ty =>
        mode <- get_prop event "mode";;;
        if negb (includes MODES mode)
        then throw (Error ("An event mode must be either " +:+ dq +:+ "auto"
                           +:+ dq +:+ ", asIs" +:+ dq +:+ ", " +:+ dq +:+ "sync"
                           +:+ dq +:+ " or " +:+ dq +:+ "async" +:+ dq))
        else
          cb <- get_prop event "cb";;;
          if truthy cb && negb (typeof cb =? "function")
          then throw (TypeError "An event callback must be a function")
          else
            self <- get_bus this;;;
            event <- apply_prefix self event ty;;;
            match source self with
            | Some src => source_next src event
            | None => dispatch this event
            end
    | _ => throw (TypeError "An event type must be a string")
    end.

(** [next(event)].  The recursion follows [this.source]; [fuel] bounds
    the length of that chain. *)
Fixpoint next_rec (fuel : nat) (this : nat) (event : Value) : M World Value :=
  match fuel with
  | O => wrong
  | S fuel => next_body (next_rec fuel) this event
  end.

(** [next(event)] with the fuel that always suffices: a source is an
    older instance, so the chain is never longer than the number of
    instances (see [next_rec_fuel] and [next_eq]). *)
Definition next (this : nat) (event : Value) : M World Value :=
  fun s => next_rec (length (buses s)) this event s.

(** [createEvent], lines 240 to 249. *)
Definition createEvent (type mode args cb : Value) : M World Value :=
  args <- (if truthy args then ret args else alloc (OArray []));;;
  event <- alloc (OPlain (<["args" := args]>
                          (<["mode" := mode]> (<["type" := type]> ∅))));;;
  (if truthy cb then set_prop event "cb" cb else ret tt);;;
  ret event.

(** [ToString], which both the member access [this.events[eventType]]
    and the template literal of the error message apply to the event
    type. *)
Definition ToString (v : Value) : M World string :=
  match ToString_primitive v with
  | Some str => ret str
  | None => on_state (to_string X v)
  end.

(** [_toot], lines 144 to 162.  The event type is not checked: it is
    turned into a key for the registry, and handed to [createEvent] as it
    is. *)
Definition _toot (this : nat) (eventType mode args cb : Value)
    : M World Value :=
  key <- ToString eventType;;;
  self <- get_bus this;;;
  let registeredEvent := events_get (events self) key in
  mode <-
    (if member_truthy registeredEvent
     then
       if truthy mode
       then
         shown <- ToString eventType;;;
         throw (Error ("Event " +:+ dq +:+ shown +:+ dq
                       +:+ " is a registered event"
                       +:+ "and shouldn't be tooted with a custom mode"))
       else ret (member_mode registeredEvent)
     else ret (if truthy mode then mode else VStr "auto"));;;
  event <- createEvent eventType mode args cb;;;
  next this event.

(** The ten shorthands, lines 164 to 202.  The rest parameter [...args]
    is a fresh array; the shorthands without a callback leave [cb]
    undefined. *)
Definition toot_as (this : nat) (eventType mode : Value)
    (args : list Value) (cb : Value) : M World Value :=
  args <- alloc (OArray args);;;
  _toot this eventType mode args cb.

Definition toot this eventType args := toot_as this eventType VNull args VUndefined.
Definition tootAuto this eventType args := toot_as this eventType (VStr "auto") args VUndefined.
Definition tootAsIs this eventType args := toot_as this eventType (VStr "asIs") args VUndefined.
Definition tootSync this eventType args := toot_as this eventType (VStr "sync") args VUndefined.
Definition tootAsync this eventType args := toot_as this eventType (VStr "async") args VUndefined.
Definition tootWith this eventType cb args := toot_as this eventType VNull args cb.
Definition tootAutoWith this eventType cb args := toot_as this eventType (VStr "auto") args cb.
Definition tootAsIsWith this eventType cb args := toot_as this eventType (VStr "asIs") args cb.
Definition tootSyncWith this eventType cb args := toot_as this eventType (VStr "sync") args cb.
Definition tootAsyncWith this eventType cb args := toot_as this eventType (VStr "async") args cb.

(** [register], lines 204 to 218.  The second argument of [new Error]
    is not part of the message. *)
Definition register (this : nat) (eventType mode : Value) : M World Value :=
  match eventType with
  | VStr ty =>
      if (String.length ty =? 0)%nat
      then throw (Error "An event type must be a non-empty string")
      else
        self <- get_bus this;;;
        if member_truthy (events_get (events self) ty)
        then throw (Error ("Event " +:+ dq +:+ ty +:+ dq +:+ " is already registered"))
        else if negb (includes MODES mode)
        then throw (Error "A mode must be one of the following:")
        else
          set_bus this (with_events (<[ty := {| mode := mode |}]> (events self)) self);;;
          ret VUndefined
  | _ => throw (Error "An event type must be a non-empty string")
  end.

(** [prefix], lines 220 to 228. *)
Definition prefix (this : nat) (prefix : Value) : M World nat :=
  match prefix with
  | VStr p =>
      instance <- lift this VUndefined;;;
      b <- get_bus instance;;;
      set_bus instance (with_prefix p b);;;
      ret instance
  | _ => throw (TypeError "A prefix must be a string")
  end.

End Methods.

(** ** Spies

    A stand-in for the outside capabilities that only records what it is
    asked to do, in the order it is asked. *)

Inductive Effect : Type :=
| Delivered (bus : nat) (event : Value)
| Composed (c : Corrie) (e : Entry) (handlers : list Value)
| Called (fn : Value) (args : list Value).

(** The function every spied composition returns. *)
Definition composed_fn : Value := VFun 0.

(** The state with one more effect recorded. *)
Definition recorded (e : Effect) (s : State (list Effect)) : State (list Effect) :=
  {| buses := buses s; objs := objs s; world := world s ++ [e] |}.

Definition spy : Externals (list Effect) :=
  {| Subject_next bus event s := (Returned tt, recorded (Delivered bus event) s);
     corrie_compose c e handlers s :=
       (Returned composed_fn, recorded (Composed c e handlers) s);
     call_function f args s := (Returned VUndefined, recorded (Called f args) s);
     to_string v s := (Returned "[object Object]", s) |}.

Definition empty_state : State (list Effect) :=
  {| buses := []; objs := []; world := [] |}.

(** Runs a command and keeps the state. *)
Definition exec {W A} (m : M W A) (s : State W) : State W := snd (m s).

(** As [spy], with a subscriber that runs [body] on the bus and the
    event each time an event is delivered. *)
Definition subscribing (body : nat -> Value -> M (list Effect) unit)
    : Externals (list Effect) :=
  {| Subject_next bus event s :=
       (Returned tt, exec (body bus event) (recorded (Delivered bus event) s));
     corrie_compose := corrie_compose spy;
     call_function := call_function spy;
     to_string := to_string spy |}.

(** ** Well-formed states and envelopes *)

(** A source is an older instance. *)
Definition wf {W} (s : State W) : Prop :=
  forall r b j, buses s !! r = Some b -> source b = Some j -> j < r.

(** What [constructor], [lift] and [prefix] establish for an instance and
    no method undoes: the matcher and the ordering flag of each store,
    and a prefix only on an instance that has a source. *)
Definition bus_ok (b : Hooter) : Prop :=
  HookStore.matcher (hookStoreBefore b) = match_
  /\ HookStore.reversed (hookStoreBefore b) = false
  /\ HookStore.matcher (hookStore b) = match_
  /\ HookStore.reversed (hookStore b) = false
  /\ HookStore.matcher (hookStoreAfter b) = match_
  /\ HookStore.reversed (hookStoreAfter b) = true
  /\ (source b = None -> _prefix b = None).

Definition state_ok {W} (s : State W) : Prop :=
  wf s /\ forall r b, buses s !! r = Some b -> bus_ok b.

(** The own properties of an envelope that passes the four checks of
    [next]: a string [type], one of the four modes, and a [cb] that is
    falsy or a function. *)
Definition passes (props : gmap string Value) (ty : string) : Prop :=
  prop (OPlain props) "type" = VStr ty
  /\ includes MODES (prop (OPlain props) "mode") = true
  /\ (truthy (prop (OPlain props) "cb") = false
      \/ typeof (prop (OPlain props) "cb") = "function").

(** [!event || typeof event !== 'object'] *)
Definition not_an_object (event : Value) : bool :=
  negb (truthy event) || negb (typeof event =? "object").

(** The array an envelope carries as [args], and its elements. *)
Definition prop_of_args {W} (event : Value) (s : State W)
    : option (nat * list Value) :=
  match event with
  | VObj l =>
      match objs s !! l with
      | Some o =>
          match prop o "args" with
          | VObj a =>
              match objs s !! a with
              | Some (OArray argv) => Some (a, argv)
              | _ => None
              end
          | _ => None
          end
      | None => None
      end
  | _ => None
  end.

(** The state after instance [r] has become [b]. *)
Definition put_bus {W} (r : nat) (b : Hooter) (s : State W) : State W :=
  {| buses := <[r := b]> (buses s); objs := objs s; world := world s |}.

(** An instance after [unhook(needle)]. *)
Definition unhooked (needle : nat) (b : Hooter) : Hooter :=
  with_store After (HookStore.del needle (hookStoreAfter b))
    (with_store Main (HookStore.del needle (hookStore b))
       (with_store Before (HookStore.del needle (hookStoreBefore b)) b)).

(** The own properties [createEvent] gives an envelope. *)
Definition envelope (type mode args cb : Value) : gmap string Value :=
  let props := <["args" := args]> (<["mode" := mode]> (<["type" := type]> ∅)) in
  if truthy cb then <["cb" := cb]> props else props.

(** The state after one more object has been allocated. *)
Definition with_obj {W} (o : Obj) (s : State W) : State W :=
  {| buses := buses s; objs := objs s ++ [o]; world := world s |}.

(** The state after the outside world has moved on. *)
Definition with_world {W} (w : W) (s : State W) : State W :=
  {| buses := buses s; objs := objs s; world := w |}.

(** ** Scenarios *)

Module Scenario.

(** One bus, instance 0. *)
Definition fresh : State (list Effect) :=
  exec (constructor VUndefined) empty_state.

(** Instance 0 of a state, for reading its fields. *)
Definition bus0 (s : State (list Effect)) : Hooter :=
  default (new_Hooter VUndefined) (buses s !! 0).

(** A state with an [args] array at 0 and an envelope at 1. *)
Definition submit (props : gmap string Value) (argv : list Value)
    (s : State (list Effect)) : State (list Effect) :=
  with_obj (OPlain props) (with_obj (OArray argv) s).

(** Four hooks on instance 0: one at the start, one in the middle, two at
    the end. *)
Definition hooked : State (list Effect) :=
  exec (hookEnd 0 (VStr "user.created") (VFun 13))
    (exec (hookEnd 0 (VStr "**") (VFun 12))
       (exec (hook 0 (VStr "user.*") (VFun 11))
          (exec (hookStart 0 (VStr "user.**") (VFun 10)) fresh))).

Definition user_created : gmap string Value :=
  envelope (VStr "user.created") (VStr "sync") (VObj 0) VUndefined.

Definition charged : gmap string Value :=
  envelope (VStr "charged") (VStr "auto") (VObj 0) VUndefined.

(** The hooked bus with one more hook in the middle, for other events. *)
Definition crowded : State (list Effect) :=
  exec (hook 0 (VStr "order.*") (VFun 14)) hooked.

(** [user.created] with a callback. *)
Definition user_created_cb : gmap string Value :=
  envelope (VStr "user.created") (VStr "sync") (VObj 0) (VFun 5).

(** [user.created] with the number 0 as [cb]. *)
Definition user_created_zero : gmap string Value :=
  <["cb" := VNum 0]> user_created.

(** A subscriber that hooks [VFun 99] on every event while an event is
    delivered to it. *)
Definition late_hook : Externals (list Effect) :=
  subscribing (fun bus _ => hook bus (VStr "**") (VFun 99);;; ret tt).

(** An envelope whose [cb] is the number 0. *)
Definition with_cb_zero : gmap string Value :=
  <["cb" := VNum 0]> (envelope (VStr "tick") (VStr "sync") (VObj 0) VUndefined).

(** An envelope whose [type] is the empty string. *)
Definition untyped (m : string) : gmap string Value :=
  envelope (VStr "") (VStr m) (VObj 0) VUndefined.

(** Instance 0 with [tick] registered as a [sync] event. *)
Definition registered : State (list Effect) :=
  exec (register 0 (VStr "tick") (VStr "sync")) fresh.

(** Instance 1 is [prefix(p)] of instance 0. *)
Definition prefixed (p : string) : State (list Effect) :=
  exec (prefix 0 (VStr p)) fresh.

(** Instance 2 is [prefix(q)] of instance 1, itself [prefix(p)] of 0. *)
Definition prefixed_twice (p q : string) : State (list Effect) :=
  exec (prefix 1 (VStr q)) (prefixed p).

End Scenario.

(** ** Terminal signals *)

Section Terminal.

Context {World : Type}.

(** [super.error] and [super.complete] of the rxjs [Subject]: the
    subscribers are told, and what they do may change anything. *)
Record Terminals : Type := mkTerminals {
  Subject_error : nat -> Value -> State World -> Result unit * State World;
  Subject_complete : nat -> State World -> Result unit * State World
}.

Variable T : Terminals.

(** [error(err)], lines 44 to 50.  A source is a bus, so
    [this.source.error] is there whenever [this.source] is; the result
    of [super.error] is dropped. *)
Fixpoint error_rec (fuel : nat) (this : nat) (err : Value) : M World Value :=
  match fuel with
  | O => wrong
  | S fuel =>
      self <- get_bus this;;;
      match source self with
      | Some src => error_rec fuel src err
      | None => on_state (Subject_error T this err);;; ret VUndefined
      end
  end.

Definition error (this : nat) (err : Value) : M World Value :=
  fun s => error_rec (length (buses s)) this err s.

(** [complete()], lines 52 to 58. *)
Fixpoint complete_rec (fuel : nat) (this : nat) : M World Value :=
  match fuel with
  | O => wrong
  | S fuel =>
      self <- get_bus this;;;
      match source self with
      | Some src => complete_rec fuel src
      | None => on_state (Subject_complete T this);;; ret VUndefined
      end
  end.

Definition complete (this : nat) : M World Value :=
  fun s => complete_rec (length (buses s)) this s.

End Terminal.

Global Arguments Terminals : clear implicits.

(** A stand-in for the terminal side of the [Subject] that records the
    signals. *)
Inductive Signal : Type :=
| Errored (bus : nat) (err : Value)
| Completed (bus : nat).

Definition signal_spy : Terminals (list Signal) :=
  {| Subject_error bus err s :=
       (Returned tt, with_world (world s ++ [Errored bus err]) s);
     Subject_complete bus s :=
       (Returned tt, with_world (world s ++ [Completed bus]) s) |}.

(** ** Delegation paths *)

(** [path s d ps root]: following [source] from instance [d] ends at
    [root], an instance without a source; [ps] lists the prefixes of the
    instances passed, [d] first, [root] excluded. *)
Inductive path {W} (s : State W) : nat -> list (option string) -> nat -> Prop :=
| path_root r b :
    buses s !! r = Some b -> source b = None -> path s r [] r
| path_step d b src ps root :
    buses s !! d = Some b -> source b = Some src ->
    path s src ps root ->
    path s d (_prefix b :: ps) root.

(** The type an event of type [ty] has after the instances of a path
    have passed it on: each truthy prefix is put in front, the first
    instance's first. *)
Definition retype (ps : list (option string)) (ty : string) : string :=
  fold_left
    (fun ty p => if prefix_truthy p then default "" p +:+ "." +:+ ty else ty)
    ps ty.

(** What the instances of a path make of an envelope at location [l]
    with properties [props] and type [ty], when [n] is the next free
    location: the location and properties of the object that arrives,
    and the copies allocated on the way, one for each truthy prefix. *)
Fixpoint forwarded (ps : list (option string)) (l : nat)
    (props : gmap string Value) (ty : string) (n : nat)
    : nat * gmap string Value * list Obj :=
  match ps with
  | [] => (l, props, [])
  | p :: ps =>
      if prefix_truthy p
      then
        let ty' := default "" p +:+ "." +:+ ty in
        let props' := <["type" := VStr ty']> props in
        let '(l', arrived, copies) := forwarded ps n props' ty' (S n) in
        (l', arrived, OPlain props' :: copies)
      else forwarded ps l props ty n
  end.

(** The state after the objects [more] have been allocated. *)
Definition with_objs {W} (more : list Obj) (s : State W) : State W :=
  {| buses := buses s; objs := objs s ++ more; world := world s |}.

(** A state [s'] that comes after [s] with the same instances and every
    object of [s] as it was. *)
Definition extends {W} (s s' : State W) : Prop :=
  buses s' = buses s /\ exists more, objs s' = objs s ++ more.

(** Code outside the bus (subscribers, the sequencing capability, the
    handlers, a [toString]) that leaves the instances and the existing
    objects alone. *)
Definition outside_keeps {W} (X : Externals W) : Prop :=
  (forall bus event s, extends s (snd (Subject_next X bus event s)))
  /\ (forall c e handlers s, extends s (snd (corrie_compose X c e handlers s)))
  /\ (forall f args s, extends s (snd (call_function X f args s)))
  /\ (forall v s, extends s (snd (to_string X v s))).

(** What a callback argument may be for the checks of [next] to pass. *)
Definition callback_ok (cb : Value) : Prop :=
  truthy cb = false \/ typeof cb = "function".

(** What the mode argument of [_toot] may be for the checks of [next]
    to pass on an unregistered type: nothing, or one of the four. *)
Definition mode_ok (m : Value) : Prop :=
  truthy m = false \/ includes MODES m = true.

(** [mode || 'auto']. *)
Definition mode_or_auto (m : Value) : Value :=
  if truthy m then m else VStr "auto".


(** ** Locality *)

(** Nothing but instance [this] differs between [s] and [s']. *)
Definition elsewhere_same {W} (this : nat) (s s' : State W) : Prop :=
  objs s' = objs s /\ world s' = world s
  /\ length (buses s') = length (buses s)
  /\ forall r, r <> this -> buses s' !! r = buses s !! r.

(** The fields of an instance that say what it is and where it sends
    its events. *)
Definition same_identity (b b' : Hooter) : Prop :=
  corrie b' = corrie b /\ operator b' = operator b
  /\ source b' = source b /\ _prefix b' = _prefix b.

(** How [_toot] settles the mode [mv] of the envelope from the mode [m]
    it was given and the registry of the instance. *)
Definition resolves (self : Hooter) (ty : string) (m mv : Value) : Prop :=
  (events self !! ty = None /\ inherited ty = false /\ mv = mode_or_auto m)
  \/ (exists re, events self !! ty = Some re /\ truthy m = false /\ mv = mode re).

(** A value [...v] cannot spread. *)
Definition not_iterable {W} (s : State W) (v : Value) : Prop :=
  match v with
  | VStr _ => False
  | VObj a => exists props, objs s !! a = Some (OPlain props)
  | _ => True
  end.


(** A command that only allocates: whatever it returns, the instances
    are the same and the objects that were there are as they were. *)
Definition grows {W A} (m : M W A) : Prop :=
  forall s o s', m s = (o, s') -> extends s s'.


(** * Properties *)

(** ** The matcher *)

Module WildcardFacts.
Import Wildcard.

Lemma matchSegments_nil_nil : matchSegments [] [] = true.
Proof. reflexivity. Qed.

Lemma matchSegments_nil_cons y ys :
  matchSegments [] (y :: ys) = (y =? "**") && matchSegments [] ys.
Proof. reflexivity. Qed.

Lemma matchSegments_cons_nil x xs :
  matchSegments (x :: xs) [] = (x =? "**") && matchSegments xs [].
Proof. reflexivity. Qed.

Lemma matchSegments_cons_cons x xs y ys :
  matchSegments (x :: xs) (y :: ys) =
  if x =? "**" then matchSegments xs (y :: ys) || matchSegments (x :: xs) ys
  else if y =? "**" then matchSegments (x :: xs) ys || matchSegments xs (y :: ys)
  else ((x =? "*") || (y =? "*") || (x =? y)) && matchSegments xs ys.
Proof. reflexivity. Qed.

(** Against the empty type only a run of [**] matches. *)
Lemma rule_nil_iff ps : matchSegments [] ps = true <-> rule ps [].
Proof.
  induction ps as [|p ps IH].
  - split; [constructor | reflexivity].
  - rewrite matchSegments_nil_cons, andb_true_iff, IH, String.eqb_eq.
    split.
    + intros [-> H]. by apply rule_glob_none.
    + intros H. inversion H; subst. by split.
Qed.

(** On a concrete type the comparison decides the rule. *)
Lemma matchSegments_rule ts :
  concrete ts -> forall ps, matchSegments ts ps = true <-> rule ps ts.
Proof.
  induction 1 as [|t ts [Hstar Hglob] Hts IHts]; [apply rule_nil_iff|].
  induction ps as [|p ps IHps].
  - rewrite matchSegments_cons_nil.
    apply String.eqb_neq in Hglob as ->. simpl.
    split; [discriminate | intros H; inversion H].
  - rewrite matchSegments_cons_cons.
    pose proof Hglob as Hg. apply String.eqb_neq in Hg as ->.
    destruct (String.eqb_spec p "**") as [->|Hp].
    + rewrite orb_true_iff, IHps, IHts. split.
      * intros [H|H]; [by apply rule_glob_none | by apply rule_glob_more].
      * intros H. inversion H; subst; try congruence; auto.
    + pose proof Hstar as Hs. apply String.eqb_neq in Hs as ->.
      rewrite orb_false_l, andb_true_iff, orb_true_iff, !String.eqb_eq, IHts.
      split.
      * intros [[->| ->] H]; [by apply rule_star | by apply rule_literal].
      * intros H. inversion H; subst; try congruence; auto.
Qed.

(** [**] alone matches whatever the other sample is. *)
Lemma matchSegments_glob xs : matchSegments xs ["**"] = true.
Proof.
  induction xs as [|x xs IH]; [reflexivity|].
  rewrite matchSegments_cons_cons.
  destruct (x =? "**"); rewrite IH; simpl; [reflexivity | apply orb_true_r].
Qed.

(** The comparison does not depend on the order of its samples. *)
Lemma matchSegments_sym xs : forall ys, matchSegments xs ys = matchSegments ys xs.
Proof.
  induction xs as [|x xs IHxs].
  - induction ys as [|y ys IHys]; [reflexivity|].
    rewrite matchSegments_nil_cons, matchSegments_cons_nil. by rewrite IHys.
  - induction ys as [|y ys IHys].
    + rewrite matchSegments_nil_cons, matchSegments_cons_nil. by rewrite IHxs.
    + rewrite !matchSegments_cons_cons, IHys, !IHxs.
      destruct (String.eqb_spec x "**") as [->|Hx],
               (String.eqb_spec y "**") as [->|Hy]; simpl.
      * apply orb_comm.
      * reflexivity.
      * reflexivity.
      * f_equal. rewrite (String.eqb_sym y x).
        destruct (x =? "*"), (y =? "*"), (x =? y); reflexivity.
Qed.

Lemma split_nonempty sep s : split sep s <> [].
Proof.
  destruct s as [|c s]; simpl; [discriminate|].
  destruct (Ascii.eqb c sep); [discriminate|].
  destruct (split sep s); discriminate.
Qed.

End WildcardFacts.

(** ** The hook store *)

Module HookStoreFacts.
Import HookStore.

Lemma get_In ty s h :
  In h (get ty s) <-> In h (hooks s) /\ matcher s ty (pattern h) = true.
Proof.
  unfold get. destruct (reversed s).
  - rewrite <- in_rev. apply filter_In.
  - apply filter_In.
Qed.

Lemma get_forward ty s :
  reversed s = false ->
  get ty s = List.filter (fun h => matcher s ty (pattern h)) (hooks s).
Proof. unfold get. by intros ->. Qed.

Lemma get_backward ty s :
  reversed s = true ->
  get ty s = rev (List.filter (fun h => matcher s ty (pattern h)) (hooks s)).
Proof. unfold get. by intros ->. Qed.

(** A successful [put] appends: the list of hooks is in insertion order. *)
Lemma put_appends pat f s :
  pat <> "" -> typeof f = "function" ->
  put (VStr pat) f s =
  inr (counter s,
       {| matcher := matcher s; reversed := reversed s;
          hooks := hooks s ++ [{| id := counter s; pattern := pat; fn := f |}];
          counter := S (counter s) |}).
Proof.
  intros Hpat Hf. unfold put.
  apply String.eqb_neq in Hpat as ->. by rewrite Hf.
Qed.

Lemma put_keeps_flags p f s handle s' :
  put p f s = inr (handle, s') ->
  matcher s' = matcher s /\ reversed s' = reversed s.
Proof.
  unfold put. destruct p; try discriminate.
  destruct (s0 =? ""); [discriminate|].
  destruct (negb _); [discriminate|].
  intros [= <- <-]. by split.
Qed.

(** A later hook comes later in a forward store and earlier in a
    reversed one. *)
Lemma get_after_put ty s h :
  get ty {| matcher := matcher s; reversed := reversed s;
            hooks := hooks s ++ [h]; counter := S (counter s) |} =
  let new := if matcher s ty (pattern h) then [h] else [] in
  if reversed s then new ++ get ty s else get ty s ++ new.
Proof.
  unfold get. simpl. rewrite List.filter_app. simpl.
  destruct (matcher s ty (pattern h)), (reversed s); simpl;
    rewrite ?rev_app_distr, ?app_nil_r; reflexivity.
Qed.

Lemma del_In needle s h :
  In h (hooks (del needle s)) <-> In h (hooks s) /\ id h <> needle.
Proof.
  unfold del. simpl. rewrite filter_In, negb_true_iff, Nat.eqb_neq. tauto.
Qed.

Lemma filter_twice {A} (f : A -> bool) (l : list A) :
  List.filter f (List.filter f l) = List.filter f l.
Proof.
  induction l as [|a l IH]; [reflexivity|]. simpl.
  destruct (f a) eqn:E; simpl; rewrite ?E, IH; reflexivity.
Qed.

Lemma del_del needle s : del needle (del needle s) = del needle s.
Proof. unfold del. simpl. by rewrite filter_twice. Qed.

Lemma del_absent needle s :
  (forall h, In h (hooks s) -> id h <> needle) -> del needle s = s.
Proof.
  intros H. destruct s as [m r hs c]. unfold del. simpl in *. f_equal.
  induction hs as [|h hs IH]; [reflexivity|]. simpl.
  assert (id h <> needle) as Hne by (apply H; by left).
  apply Nat.eqb_neq in Hne as ->. simpl. f_equal.
  apply IH. intros h' Hin. apply H. by right.
Qed.

(** After [del] no lookup returns a hook with the removed id. *)
Lemma get_del ty needle s h :
  In h (get ty (del needle s)) -> id h <> needle.
Proof. rewrite get_In, del_In. tauto. Qed.

End HookStoreFacts.

(** ** The bus *)

Section BusFacts.

Context {World : Type}.
Variable X : Externals World.

Implicit Types (s : State World) (b self : Hooter) (props : gmap string Value).

Lemma state_eta s :
  {| buses := buses s; objs := objs s; world := world s |} = s.
Proof. by destruct s. Qed.

Lemma wf_with_obj o s : wf s -> wf (with_obj o s).
Proof. intros H. exact H. Qed.

Lemma passes_cb props ty :
  passes props ty ->
  truthy (prop (OPlain props) "cb")
  && negb (typeof (prop (OPlain props) "cb") =? "function") = false.
Proof.
  intros (_ & _ & [H|H]); rewrite H; [reflexivity|].
  simpl. apply andb_false_r.
Qed.

(** *** Running commands *)

Lemma bind_Ret {A B} (m : M World A) (k : A -> M World B) s a s' :
  m s = (Ret a, s') -> bind m k s = k a s'.
Proof. unfold bind. by intros ->. Qed.

Lemma bind_Throw {A B} (m : M World A) (k : A -> M World B) s e s' :
  m s = (Throw e, s') -> bind m k s = (Throw e, s').
Proof. unfold bind. by intros ->. Qed.

Lemma bind_ext {A B} (m : M World A) (k1 k2 : A -> M World B) s :
  (forall a s', m s = (Ret a, s') -> k1 a s' = k2 a s') ->
  bind m k1 s = bind m k2 s.
Proof. unfold bind. destruct (m s) as [[a| |] s']; auto. Qed.

Lemma get_prop_obj l o k s :
  objs s !! l = Some o -> get_prop (VObj l) k s = (Ret (prop o k), s).
Proof. unfold get_prop. by intros ->. Qed.

Lemma get_bus_at r b s :
  buses s !! r = Some b -> get_bus r s = (Ret b, s).
Proof. unfold get_bus. by intros ->. Qed.

Lemma set_bus_at r b b' s :
  buses s !! r = Some b ->
  set_bus r b' s =
  (Ret tt, {| buses := <[r := b']> (buses s); objs := objs s; world := world s |}).
Proof. unfold set_bus. by intros ->. Qed.

Lemma copy_with_type l props v s :
  objs s !! l = Some (OPlain props) ->
  (copy <- Object_assign_fresh (VObj l);;;
   set_prop copy "type" v;;; ret copy) s =
  (Ret (VObj (length (objs s))),
   with_obj (OPlain (<["type" := v]> props)) s).
Proof.
  intros Hl. unfold bind, Object_assign_fresh, alloc, set_prop, ret, with_obj.
  rewrite Hl. cbn [objs buses world].
  rewrite lookup_app_r by lia. rewrite Nat.sub_diag. cbn [lookup list_lookup].
  do 2 f_equal.
  rewrite <- (Nat.add_0_r (length (objs s))) at 1.
  by rewrite insert_app_r.
Qed.

(** *** One instance's share of [next] *)

(** The four checks pass on an accepted envelope. *)
Lemma next_body_checked source_next this l props ty s self :
  objs s !! l = Some (OPlain props) ->
  passes props ty ->
  buses s !! this = Some self ->
  next_body X source_next this (VObj l) s =
  (event <- apply_prefix self (VObj l) ty;;;
   match source self with
   | Some src => source_next src event
   | None => dispatch X this event
   end) s.
Proof.
  intros Hl Hp Hb.
  pose proof (passes_cb _ _ Hp) as Hcb. destruct Hp as (Hty & Hmode & _).
  unfold next_body.
  change (negb (truthy (VObj l)) || negb (typeof (VObj l) =? "object")) with false.
  cbv iota.
  erewrite bind_Ret by (by apply get_prop_obj). rewrite Hty.
  erewrite bind_Ret by (by apply get_prop_obj). rewrite Hmode. cbn [negb].
  erewrite bind_Ret by (by apply get_prop_obj). rewrite Hcb.
  erewrite bind_Ret by (by apply get_bus_at).
  reflexivity.
Qed.

(** An accepted envelope on an instance without a truthy prefix goes on
    as it is: to the source if there is one, to the local dispatch
    otherwise. *)
Lemma next_body_plain source_next this l props ty s self :
  objs s !! l = Some (OPlain props) ->
  passes props ty ->
  buses s !! this = Some self ->
  prefix_truthy (_prefix self) = false ->
  next_body X source_next this (VObj l) s =
  match source self with
  | Some src => source_next src (VObj l) s
  | None => dispatch X this (VObj l) s
  end.
Proof.
  intros Hl Hp Hb Hpre.
  rewrite (next_body_checked _ _ _ _ _ _ _ Hl Hp Hb).
  unfold apply_prefix. rewrite Hpre.
  unfold bind, ret. by destruct (source self).
Qed.

(** With a truthy prefix the envelope is copied into a fresh object, the
    copy gets the prefixed type, and the copy goes on. *)
Lemma next_body_prefixed source_next this l props ty s self p :
  objs s !! l = Some (OPlain props) ->
  passes props ty ->
  buses s !! this = Some self ->
  _prefix self = Some p -> p <> "" ->
  let ty' := p +:+ "." +:+ ty in
  let copy := VObj (length (objs s)) in
  let s' := with_obj (OPlain (<["type" := VStr ty']> props)) s in
  next_body X source_next this (VObj l) s =
  match source self with
  | Some src => source_next src copy s'
  | None => dispatch X this copy s'
  end.
Proof.
  intros Hl Hp Hb Hpre Hne ty' copy s'.
  rewrite (next_body_checked _ _ _ _ _ _ _ Hl Hp Hb).
  unfold apply_prefix. rewrite Hpre.
  cbn [prefix_truthy default].
  apply String.eqb_neq in Hne as ->. cbn [negb].
  erewrite bind_Ret by (by apply copy_with_type).
  by destruct (source self).
Qed.

(** *** The checks of [next] *)

Lemma not_an_object_false event :
  not_an_object event = false -> exists l, event = VObj l.
Proof.
  unfold not_an_object. intros H.
  destruct event; try (simpl in H; rewrite ?orb_true_r in H; discriminate).
  eauto.
Qed.

Lemma next_body_not_object source_next this event s :
  not_an_object event = true ->
  next_body X source_next this event s =
  (Throw (TypeError "An event must be an object"), s).
Proof. unfold next_body, not_an_object. by intros ->. Qed.

Lemma next_body_bad_type source_next this l o s :
  objs s !! l = Some o ->
  typeof (prop o "type") <> "string" ->
  next_body X source_next this (VObj l) s =
  (Throw (TypeError "An event type must be a string"), s).
Proof.
  intros Hl Hty. unfold next_body.
  change (negb (truthy (VObj l)) || negb (typeof (VObj l) =? "object")) with false.
  cbv iota. erewrite bind_Ret by (by apply get_prop_obj).
  by destruct (prop o "type").
Qed.

Lemma next_body_bad_mode source_next this l o s :
  objs s !! l = Some o ->
  typeof (prop o "type") = "string" ->
  includes MODES (prop o "mode") = false ->
  next_body X source_next this (VObj l) s =
  (Throw (Error ("An event mode must be either " +:+ dq +:+ "auto"
                 +:+ dq +:+ ", asIs" +:+ dq +:+ ", " +:+ dq +:+ "sync"
                 +:+ dq +:+ " or " +:+ dq +:+ "async" +:+ dq)), s).
Proof.
  intros Hl Hty Hmode. unfold next_body.
  change (negb (truthy (VObj l)) || negb (typeof (VObj l) =? "object")) with false.
  cbv iota. erewrite bind_Ret by (by apply get_prop_obj).
  destruct (prop o "type"); try discriminate.
  erewrite bind_Ret by (by apply get_prop_obj). by rewrite Hmode.
Qed.

Lemma next_body_bad_cb source_next this l o s :
  objs s !! l = Some o ->
  typeof (prop o "type") = "string" ->
  includes MODES (prop o "mode") = true ->
  truthy (prop o "cb") = true ->
  typeof (prop o "cb") <> "function" ->
  next_body X source_next this (VObj l) s =
  (Throw (TypeError "An event callback must be a function"), s).
Proof.
  intros Hl Hty Hmode Hcb Hfn. unfold next_body.
  change (negb (truthy (VObj l)) || negb (typeof (VObj l) =? "object")) with false.
  cbv iota. erewrite bind_Ret by (by apply get_prop_obj).
  destruct (prop o "type"); try discriminate.
  erewrite bind_Ret by (by apply get_prop_obj). rewrite Hmode. cbn [negb].
  erewrite bind_Ret by (by apply get_prop_obj). rewrite Hcb.
  apply String.eqb_neq in Hfn as ->. reflexivity.
Qed.

(** [next] runs the body at least once on an instance that exists. *)
Lemma next_unfold this event s :
  this < length (buses s) ->
  next X this event s =
  next_body X (next_rec X (pred (length (buses s)))) this event s.
Proof.
  intros Hlt. unfold next. destruct (length (buses s)); [lia | reflexivity].
Qed.

(** *** Fuel *)

Lemma get_prop_state v k s o s' : get_prop v k s = (o, s') -> s' = s.
Proof.
  unfold get_prop. destruct v; try by intros [= _ <-].
  destruct (objs s !! l); by intros [= _ <-].
Qed.

Lemma apply_prefix_buses self event ty s o s' :
  apply_prefix self event ty s = (o, s') -> buses s' = buses s.
Proof.
  unfold apply_prefix. destruct (prefix_truthy _); [|by intros [= _ <-]].
  unfold bind, Object_assign_fresh, alloc, set_prop, ret.
  destruct event; try by intros [= _ <-].
  destruct (objs s !! l) as [[props|elems]|]; try by intros [= _ <-].
  cbn [objs buses world].
  rewrite lookup_app_r by lia. rewrite Nat.sub_diag. cbn [lookup list_lookup].
  by intros [= _ <-].
Qed.

(** The body only calls [source_next] on the source of [this], in a
    state with the same instances. *)
Lemma next_body_ext f g this event s :
  (forall self src ev s',
      buses s !! this = Some self -> source self = Some src ->
      buses s' = buses s -> f src ev s' = g src ev s') ->
  next_body X f this event s = next_body X g this event s.
Proof.
  intros Hfg. unfold next_body.
  destruct (negb (truthy event) || negb (typeof event =? "object")); [reflexivity|].
  apply bind_ext. intros type s1 E1. apply get_prop_state in E1 as ->.
  destruct type; try reflexivity.
  apply bind_ext. intros mode s1 E1. apply get_prop_state in E1 as ->.
  destruct (negb (includes MODES mode)); [reflexivity|].
  apply bind_ext. intros cb s1 E1. apply get_prop_state in E1 as ->.
  destruct (truthy cb && negb (typeof cb =? "function")); [reflexivity|].
  apply bind_ext. intros self s1 E1. unfold get_bus in E1.
  destruct (buses s !! this) eqn:Hb; [|discriminate]. injection E1 as -> <-.
  apply bind_ext. intros ev s1 E1. apply apply_prefix_buses in E1.
  destruct (source self) as [src|] eqn:Hsrc; [|reflexivity].
  by eapply Hfg.
Qed.

(** Any fuel beyond the index of the instance gives the same result. *)
Lemma next_rec_fuel fuel : forall fuel' this event s,
  wf s -> this < fuel -> this < fuel' ->
  next_rec X fuel this event s = next_rec X fuel' this event s.
Proof.
  induction fuel as [|fuel IH]; intros fuel' this event s Hwf H1 H2; [lia|].
  destruct fuel' as [|fuel']; [lia|]. cbn [next_rec].
  apply next_body_ext. intros self src ev s' Hb Hsrc Hs'.
  pose proof (Hwf _ _ _ Hb Hsrc).
  apply IH; [|lia|lia].
  intros r b j. rewrite Hs'. apply Hwf.
Qed.

(** In a well-formed state [next] is its body with [next] for the source. *)
Lemma next_eq this event s :
  wf s -> this < length (buses s) ->
  next X this event s = next_body X (next X) this event s.
Proof.
  intros Hwf Hlt. rewrite next_unfold by done.
  apply next_body_ext. intros self src ev s' Hb Hsrc Hs'.
  unfold next. rewrite Hs'.
  pose proof (Hwf _ _ _ Hb Hsrc).
  apply next_rec_fuel; [|lia|lia].
  intros r b j. rewrite Hs'. apply Hwf.
Qed.

(** *** Emission on an instance without a source *)

Lemma bus_ok_no_prefix self :
  bus_ok self -> source self = None -> prefix_truthy (_prefix self) = false.
Proof. intros (_ & _ & _ & _ & _ & _ & H) Hsrc. by rewrite (H Hsrc). Qed.

Lemma next_local this l props ty s self :
  objs s !! l = Some (OPlain props) ->
  passes props ty ->
  buses s !! this = Some self ->
  source self = None ->
  prefix_truthy (_prefix self) = false ->
  next X this (VObj l) s = dispatch X this (VObj l) s.
Proof.
  intros Hl Hp Hb Hsrc Hpre.
  rewrite next_unfold by (by eapply lookup_lt_Some).
  rewrite (next_body_plain _ _ _ _ _ _ _ Hl Hp Hb Hpre), Hsrc.
  reflexivity.
Qed.

(** The handlers, phase by phase. *)
Lemma handlers_for_phases self event ty cb :
  bus_ok self ->
  let bound := map (fun h => VBound (HookStore.fn h) event) in
  let matching st :=
    List.filter (fun h => match_ ty (HookStore.pattern h)) (HookStore.hooks st) in
  handlers_for self event ty cb =
  bound (matching (hookStoreBefore self))
  ++ bound (matching (hookStore self))
  ++ bound (rev (matching (hookStoreAfter self)))
  ++ (if truthy cb then [cb] else []).
Proof.
  intros (Hm1 & Hr1 & Hm2 & Hr2 & Hm3 & Hr3 & _) bound matching.
  unfold handlers_for.
  rewrite (HookStoreFacts.get_forward _ _ Hr1), (HookStoreFacts.get_forward _ _ Hr2),
    (HookStoreFacts.get_backward _ _ Hr3), Hm1, Hm2, Hm3.
  fold (matching (hookStoreBefore self)) (matching (hookStore self))
       (matching (hookStoreAfter self)).
  rewrite !map_app. fold bound.
  destruct (truthy cb); rewrite <- ?app_assoc, ?app_nil_r; reflexivity.
Qed.

(** *** After delivery

    What the subscribers leave is what [next] goes on with: the stores
    of the instance and the properties of the event are those of the
    state that delivery returns. *)

Lemma on_state_Returned {A} (f : State World -> Result A * State World) s a s' :
  f s = (Returned a, s') -> on_state f s = (Ret a, s').
Proof. unfold on_state. by intros ->. Qed.

Lemma on_state_Raised {A} (f : State World -> Result A * State World) s e s' :
  f s = (Raised e, s') -> on_state f s = (Throw e, s').
Proof. unfold on_state. by intros ->. Qed.

Lemma collect_at this l s self o ty :
  buses s !! this = Some self ->
  objs s !! l = Some o ->
  prop o "type" = VStr ty ->
  collect this (VObj l) s =
  (Ret (handlers_for self (VObj l) ty (prop o "cb")), s).
Proof.
  intros Hb Hl Hty. unfold collect.
  erewrite bind_Ret by (by apply get_bus_at).
  erewrite bind_Ret by (by apply get_prop_obj). rewrite Hty.
  erewrite bind_Ret by (by apply get_prop_obj). reflexivity.
Qed.

(** What a subscriber throws, [next] throws. *)
Lemma dispatch_raised this event s e s1 :
  Subject_next X this event s = (Raised e, s1) ->
  dispatch X this event s = (Throw e, s1).
Proof.
  intros Hn. unfold dispatch.
  by erewrite bind_Throw by (by apply on_state_Raised).
Qed.

Lemma dispatch_delivered this l s s1 self1 o1 ty1 :
  Subject_next X this (VObj l) s = (Returned tt, s1) ->
  buses s1 !! this = Some self1 ->
  objs s1 !! l = Some o1 ->
  prop o1 "type" = VStr ty1 ->
  dispatch X this (VObj l) s =
  invoke X this (VObj l) (handlers_for self1 (VObj l) ty1 (prop o1 "cb")) s1.
Proof.
  intros Hn Hb Hl Hty. unfold dispatch.
  erewrite bind_Ret by (by apply on_state_Returned).
  by erewrite bind_Ret by (by eapply collect_at).
Qed.

(** With no handler the sequencing capability is left alone. *)
Lemma invoke_nothing this event : invoke X this event [] = ret VUndefined.
Proof. reflexivity. Qed.

Lemma invoke_handlers this l handlers s self o :
  handlers <> [] ->
  buses s !! this = Some self ->
  objs s !! l = Some o ->
  invoke X this (VObj l) handlers s =
  (composed <-
     on_state (corrie_compose X (corrie self) (entry_of (prop o "mode"))
                 handlers);;;
   args <- get_prop (VObj l) "args";;;
   argv <- spread args;;;
   on_state (call_function X composed argv)) s.
Proof.
  intros Hne Hb Hl. unfold invoke.
  destruct handlers as [|h hs]; [done|]. cbn [length Nat.eqb].
  erewrite bind_Ret by (by apply get_prop_obj).
  by erewrite bind_Ret by (by apply get_bus_at).
Qed.




(** *** Emission on an instance with a source *)

Lemma next_forward_prefixed this l props ty s self src p :
  wf s ->
  objs s !! l = Some (OPlain props) ->
  passes props ty ->
  buses s !! this = Some self ->
  source self = Some src ->
  _prefix self = Some p -> p <> "" ->
  next X this (VObj l) s =
  next X src (VObj (length (objs s)))
    (with_obj (OPlain (<["type" := VStr (p +:+ "." +:+ ty)]> props)) s).
Proof.
  intros Hwf Hl Hp Hb Hsrc Hpre Hne.
  rewrite next_eq by (done || by eapply lookup_lt_Some).
  rewrite (next_body_prefixed _ _ _ _ _ _ _ _ Hl Hp Hb Hpre Hne), Hsrc.
  reflexivity.
Qed.

Lemma next_forward_plain this l props ty s self src :
  wf s ->
  objs s !! l = Some (OPlain props) ->
  passes props ty ->
  buses s !! this = Some self ->
  source self = Some src ->
  prefix_truthy (_prefix self) = false ->
  next X this (VObj l) s = next X src (VObj l) s.
Proof.
  intros Hwf Hl Hp Hb Hsrc Hpre.
  rewrite next_eq by (done || by eapply lookup_lt_Some).
  rewrite (next_body_plain _ _ _ _ _ _ _ Hl Hp Hb Hpre), Hsrc.
  reflexivity.
Qed.

(** *** Derivation *)

Lemma prefix_not_string this v s :
  typeof v <> "string" ->
  prefix this v s = (Throw (TypeError "A prefix must be a string"), s).
Proof. by destruct v. Qed.

Lemma set_bus_last (bs : list Hooter) b b' (os : list Obj) (w : World) :
  set_bus (length bs) b' {| buses := bs ++ [b]; objs := os; world := w |} =
  (Ret tt, {| buses := bs ++ [b']; objs := os; world := w |}).
Proof.
  unfold set_bus. cbn [buses objs world].
  rewrite lookup_app_r by lia. rewrite Nat.sub_diag. cbn [lookup list_lookup].
  do 2 f_equal. rewrite <- (Nat.add_0_r (length bs)) at 1.
  by rewrite insert_app_r.
Qed.

Lemma get_bus_last (bs : list Hooter) b (os : list Obj) (w : World) :
  get_bus (length bs) {| buses := bs ++ [b]; objs := os; world := w |} =
  (Ret b, {| buses := bs ++ [b]; objs := os; world := w |}).
Proof.
  unfold get_bus. cbn [buses].
  rewrite lookup_app_r by lia. by rewrite Nat.sub_diag.
Qed.

(** [lift(operator)] adds one instance whose source is the current one. *)
Lemma lift_new this op s self :
  buses s !! this = Some self ->
  lift this op s =
  (Ret (length (buses s)),
   {| buses := buses s ++
        [with_source this
           (if truthy op then with_operator op (new_Hooter VUndefined)
            else new_Hooter VUndefined)];
      objs := objs s; world := world s |}).
Proof.
  intros Hb. unfold lift, constructor.
  erewrite bind_Ret by (by apply get_bus_at).
  erewrite bind_Ret by reflexivity.
  destruct (truthy op).
  - erewrite bind_Ret;
      [|erewrite bind_Ret by apply get_bus_last; apply set_bus_last].
    erewrite bind_Ret by apply get_bus_last.
    erewrite bind_Ret by apply set_bus_last.
    reflexivity.
  - erewrite bind_Ret by reflexivity.
    erewrite bind_Ret by apply get_bus_last.
    erewrite bind_Ret by apply set_bus_last.
    reflexivity.
Qed.

(** [prefix(p)] adds one instance: a new bus with stores and registry of
    its own, the current instance as its source and [p] as its prefix. *)
Lemma prefix_string this p s self :
  buses s !! this = Some self ->
  prefix this (VStr p) s =
  (Ret (length (buses s)),
   {| buses := buses s ++ [with_prefix p (with_source this (new_Hooter VUndefined))];
      objs := objs s; world := world s |}).
Proof.
  intros Hb. unfold prefix.
  erewrite bind_Ret by (by eapply lift_new).
  cbn [truthy].
  erewrite bind_Ret by apply get_bus_last.
  erewrite bind_Ret by apply set_bus_last.
  reflexivity.
Qed.

Lemma wf_snoc s b :
  wf s -> (forall j, source b = Some j -> j < length (buses s)) ->
  wf {| buses := buses s ++ [b]; objs := objs s; world := world s |}.
Proof.
  intros Hwf Hb r b' j. cbn [buses]. intros Hr Hsrc.
  apply lookup_snoc_Some in Hr as [[_ Hr]|[-> <-]]; [by eapply Hwf | auto].
Qed.

Lemma new_Hooter_ok settings : bus_ok (new_Hooter settings).
Proof. repeat split. Qed.

Lemma derived_ok this p : bus_ok (with_prefix p (with_source this (new_Hooter VUndefined))).
Proof. repeat split. discriminate. Qed.

Lemma state_ok_snoc s b :
  state_ok s -> bus_ok b ->
  (forall j, source b = Some j -> j < length (buses s)) ->
  state_ok {| buses := buses s ++ [b]; objs := objs s; world := world s |}.
Proof.
  intros [Hwf Hok] Hb Hsrc. split; [by apply wf_snoc|].
  intros r b'. cbn [buses]. intros Hr.
  apply lookup_snoc_Some in Hr as [[_ Hr]|[-> <-]]; [by eapply Hok | done].
Qed.

Lemma state_ok_empty (w : World) :
  state_ok {| buses := []; objs := []; world := w |}.
Proof. split; intros r b; cbn; by rewrite lookup_nil. Qed.

(** The states the methods build are well-formed. *)
Lemma constructor_ok settings s :
  state_ok s -> state_ok (exec (constructor settings) s).
Proof.
  intros Hs. apply state_ok_snoc; [done | apply new_Hooter_ok | discriminate].
Qed.

Lemma prefix_ok this v s : state_ok s -> state_ok (exec (prefix this v) s).
Proof.
  intros Hs. destruct v; try exact Hs.
  destruct (buses s !! this) as [self|] eqn:Hb.
  - unfold exec. rewrite (prefix_string _ _ _ _ Hb). cbn [snd].
    apply state_ok_snoc; [done | apply derived_ok |].
    intros j [= <-]. by eapply lookup_lt_Some.
  - unfold exec, prefix, lift, bind, get_bus. by rewrite Hb.
Qed.

(** *** Updating an instance *)

Lemma set_bus_put r b b' s :
  buses s !! r = Some b -> set_bus r b' s = (Ret tt, put_bus r b' s).
Proof. apply set_bus_at. Qed.

Lemma put_bus_lookup r b s :
  r < length (buses s) -> buses (put_bus r b s) !! r = Some b.
Proof. intros H. cbn [put_bus buses]. by apply list_lookup_insert_eq. Qed.

Lemma put_bus_put_bus r b b' s : put_bus r b (put_bus r b' s) = put_bus r b s.
Proof. unfold put_bus. cbn [buses objs world]. by rewrite list_insert_insert_eq. Qed.

Lemma put_bus_same r b s : buses s !! r = Some b -> put_bus r b s = s.
Proof.
  intros H. unfold put_bus. rewrite list_insert_id by done. apply state_eta.
Qed.

Lemma state_ok_put r b b' s :
  state_ok s -> buses s !! r = Some b ->
  bus_ok b' -> source b' = source b ->
  state_ok (put_bus r b' s).
Proof.
  intros [Hwf Hok] Hb Hb' Hsrc. split.
  - intros i c j. cbn [put_bus buses]. intros Hi Hj.
    destruct (decide (r = i)) as [->|Hne].
    + rewrite list_lookup_insert_eq in Hi by (by eapply lookup_lt_Some).
      injection Hi as <-. rewrite Hsrc in Hj. by eapply Hwf.
    + rewrite list_lookup_insert_ne in Hi by done. by eapply Hwf.
  - intros i c. cbn [put_bus buses]. intros Hi.
    destruct (decide (r = i)) as [->|Hne].
    + rewrite list_lookup_insert_eq in Hi by (by eapply lookup_lt_Some).
      by injection Hi as <-.
    + rewrite list_lookup_insert_ne in Hi by done. by eapply Hok.
Qed.

(** *** Removing hooks *)

Lemma del_in_at this p needle s self :
  buses s !! this = Some self ->
  del_in this p needle s =
  (Ret tt, put_bus this (with_store p (HookStore.del needle (store_of p self)) self) s).
Proof.
  intros Hb. unfold del_in.
  erewrite bind_Ret by (by apply get_bus_at).
  by eapply set_bus_put.
Qed.

Lemma unhook_at this needle s self :
  buses s !! this = Some self ->
  unhook this needle s = (Ret VUndefined, put_bus this (unhooked needle self) s).
Proof.
  intros Hb. pose proof (lookup_lt_Some _ _ _ Hb) as Hlt. unfold unhook.
  erewrite bind_Ret by (by apply del_in_at).
  erewrite bind_Ret by (apply del_in_at; by apply put_bus_lookup).
  rewrite put_bus_put_bus.
  erewrite bind_Ret by (apply del_in_at; by apply put_bus_lookup).
  rewrite put_bus_put_bus.
  reflexivity.
Qed.

Lemma unhooked_twice needle b : unhooked needle (unhooked needle b) = unhooked needle b.
Proof.
  unfold unhooked, with_store. cbn.
  by rewrite !HookStoreFacts.del_del.
Qed.

Lemma unhooked_store p needle b :
  store_of p (unhooked needle b) = HookStore.del needle (store_of p b).
Proof. by destruct p. Qed.

Lemma unhooked_ok needle b : bus_ok b -> bus_ok (unhooked needle b).
Proof. intros H. exact H. Qed.

(** *** Registration *)

Lemma length_zero (str : string) : (String.length str =? 0)%nat = (str =? "").
Proof. by destruct str. Qed.

Lemma register_not_string this v mode s :
  typeof v <> "string" ->
  register this v mode s =
  (Throw (Error "An event type must be a non-empty string"), s).
Proof. by destruct v. Qed.

Lemma register_empty this mode s :
  register this (VStr "") mode s =
  (Throw (Error "An event type must be a non-empty string"), s).
Proof. reflexivity. Qed.

Lemma register_twice this ty mode s self re :
  buses s !! this = Some self -> ty <> "" ->
  events self !! ty = Some re ->
  register this (VStr ty) mode s =
  (Throw (Error ("Event " +:+ dq +:+ ty +:+ dq +:+ " is already registered")), s).
Proof.
  intros Hb Hty Hre. unfold register.
  rewrite length_zero. apply String.eqb_neq in Hty as ->.
  erewrite bind_Ret by (by apply get_bus_at).
  unfold events_get. by rewrite Hre.
Qed.

Lemma register_inherited this ty mode s self :
  buses s !! this = Some self -> inherited ty = true ->
  register this (VStr ty) mode s =
  (Throw (Error ("Event " +:+ dq +:+ ty +:+ dq +:+ " is already registered")), s).
Proof.
  intros Hb Hty. unfold register.
  destruct (String.length ty =? 0)%nat eqn:E.
  - rewrite length_zero in E. apply String.eqb_eq in E as ->. discriminate.
  - erewrite bind_Ret by (by apply get_bus_at).
    unfold events_get. destruct (events self !! ty); [reflexivity|].
    by rewrite Hty.
Qed.

Lemma register_bad_mode this ty mode s self :
  buses s !! this = Some self -> ty <> "" ->
  includes MODES mode = false ->
  exists msg, register this (VStr ty) mode s = (Throw (Error msg), s).
Proof.
  intros Hb Hty Hmode. unfold register.
  rewrite length_zero. apply String.eqb_neq in Hty as ->.
  erewrite bind_Ret by (by apply get_bus_at).
  destruct (member_truthy _); [eauto|].
  rewrite Hmode. eauto.
Qed.

Lemma register_stores this ty mode s self :
  buses s !! this = Some self -> ty <> "" ->
  events self !! ty = None -> inherited ty = false ->
  includes MODES mode = true ->
  register this (VStr ty) mode s =
  (Ret VUndefined,
   put_bus this (with_events (<[ty := {| mode := mode |}]> (events self)) self) s).
Proof.
  intros Hb Hty Hnone Hinh Hmode. unfold register.
  rewrite length_zero. apply String.eqb_neq in Hty as ->.
  erewrite bind_Ret by (by apply get_bus_at).
  unfold events_get. rewrite Hnone, Hinh, Hmode. cbn [member_truthy negb].
  erewrite bind_Ret by (by eapply set_bus_put).
  reflexivity.
Qed.

(** Whatever makes [register] throw, it throws a plain [Error] and
    leaves the state as it was. *)
Lemma register_throws this v mode s e s' :
  register this v mode s = (Throw e, s') ->
  s' = s /\ exists msg, e = Error msg.
Proof.
  unfold register. destruct v; try (intros [= <- <-]; eauto).
  destruct (String.length s0 =? 0)%nat; [intros [= <- <-]; eauto|].
  unfold bind, get_bus. destruct (buses s !! this) as [self|]; [|discriminate].
  destruct (member_truthy _); [intros [= <- <-]; eauto|].
  destruct (negb _); [intros [= <- <-]; eauto|].
  unfold set_bus. destruct (buses s !! this); discriminate.
Qed.

(** *** Building and submitting an envelope *)

(** With an [args] array at hand, [createEvent] allocates the envelope
    and nothing else. *)
Lemma createEvent_at type mode args cb s :
  truthy args = true ->
  createEvent type mode args cb s =
  (Ret (VObj (length (objs s))),
   with_obj (OPlain (envelope type mode args cb)) s).
Proof.
  intros Hargs. unfold createEvent, envelope. rewrite Hargs.
  erewrite bind_Ret by reflexivity.
  erewrite bind_Ret by reflexivity.
  destruct (truthy cb).
  - erewrite bind_Ret; [reflexivity|].
    unfold set_prop, alloc. cbn [objs buses world].
    rewrite lookup_app_r by lia. rewrite Nat.sub_diag. cbn [lookup list_lookup].
    unfold with_obj. do 2 f_equal.
    rewrite <- (Nat.add_0_r (length (objs s))) at 1.
    by rewrite insert_app_r.
  - erewrite bind_Ret by reflexivity. reflexivity.
Qed.

Lemma _toot_custom_mode this ty mode args cb s self re :
  buses s !! this = Some self ->
  events self !! ty = Some re ->
  truthy mode = true ->
  _toot X this (VStr ty) mode args cb s =
  (Throw (Error ("Event " +:+ dq +:+ ty +:+ dq +:+ " is a registered event"
                 +:+ "and shouldn't be tooted with a custom mode")), s).
Proof.
  intros Hb Hre Hmode. unfold _toot.
  erewrite bind_Ret by reflexivity.
  erewrite bind_Ret by (by apply get_bus_at).
  unfold events_get. rewrite Hre, Hmode. reflexivity.
Qed.

Lemma _toot_registered this ty mode0 args cb s self re :
  buses s !! this = Some self ->
  events self !! ty = Some re ->
  truthy mode0 = false ->
  _toot X this (VStr ty) mode0 args cb s =
  (event <- createEvent (VStr ty) (mode re) args cb;;; next X this event) s.
Proof.
  intros Hb Hre Hmode. unfold _toot.
  erewrite bind_Ret by reflexivity.
  erewrite bind_Ret by (by apply get_bus_at).
  unfold events_get. rewrite Hre, Hmode. reflexivity.
Qed.

Lemma _toot_unregistered this ty mode0 args cb s self :
  buses s !! this = Some self ->
  events self !! ty = None -> inherited ty = false ->
  _toot X this (VStr ty) mode0 args cb s =
  (event <- createEvent (VStr ty) (if truthy mode0 then mode0 else VStr "auto")
              args cb;;;
   next X this event) s.
Proof.
  intros Hb Hre Hinh. unfold _toot.
  erewrite bind_Ret by reflexivity.
  erewrite bind_Ret by (by apply get_bus_at).
  unfold events_get. rewrite Hre, Hinh. reflexivity.
Qed.

(** For a name every object inherits the registry lookup is truthy
    although nothing was registered, and the mode becomes [undefined]. *)
Lemma _toot_inherited this ty mode0 args cb s self :
  buses s !! this = Some self ->
  events self !! ty = None -> inherited ty = true ->
  truthy mode0 = false ->
  _toot X this (VStr ty) mode0 args cb s =
  (event <- createEvent (VStr ty) VUndefined args cb;;; next X this event) s.
Proof.
  intros Hb Hre Hinh Hmode. unfold _toot.
  erewrite bind_Ret by reflexivity.
  erewrite bind_Ret by (by apply get_bus_at).
  unfold events_get. rewrite Hre, Hinh, Hmode. reflexivity.
Qed.

(** *** Adding hooks *)

Lemma _hook_appends this pat f phase s self :
  buses s !! this = Some self ->
  pat <> "" -> typeof f = "function" ->
  let st := store_of phase self in
  _hook this 3 (VStr pat) f phase s =
  (Ret (HookStore.counter st),
   put_bus this
     (with_store phase
        {| HookStore.matcher := HookStore.matcher st;
           HookStore.reversed := HookStore.reversed st;
           HookStore.hooks := HookStore.hooks st ++
             [{| HookStore.id := HookStore.counter st;
                 HookStore.pattern := pat; HookStore.fn := f |}];
           HookStore.counter := S (HookStore.counter st) |} self) s).
Proof.
  intros Hb Hpat Hf st. unfold _hook, Nat.ltb. cbn [Nat.leb Nat.eqb].
  change (negb (typeof (VStr pat) =? "string")) with false.
  erewrite bind_Ret by reflexivity. cbv beta iota. rewrite Hf.
  change (negb ("function" =? "function")) with false. cbv iota.
  erewrite bind_Ret by (by apply get_bus_at).
  rewrite (HookStoreFacts.put_appends _ _ _ Hpat Hf).
  erewrite bind_Ret by (by eapply set_bus_put).
  reflexivity.
Qed.

Lemma with_store_ok phase st self :
  bus_ok self ->
  HookStore.matcher st = HookStore.matcher (store_of phase self) ->
  HookStore.reversed st = HookStore.reversed (store_of phase self) ->
  bus_ok (with_store phase st self).
Proof.
  intros (H1 & H2 & H3 & H4 & H5 & H6 & H7) Hm Hr.
  destruct phase; cbn in Hm, Hr; repeat split; cbn; try congruence; auto.
Qed.

Lemma with_events_ok ev self : bus_ok self -> bus_ok (with_events ev self).
Proof. intros H. exact H. Qed.

(** The invariant survives every method that changes an instance. *)
Lemma _hook_ok this n ty f phase s : state_ok s -> state_ok (exec (_hook this n ty f phase) s).
Proof.
  intros Hs. unfold exec, _hook, bind.
  destruct (n =? 1)%nat; [|destruct (negb (typeof _ =? "string"))]; try exact Hs.
  all: cbn [ret]; destruct (negb (typeof _ =? "function")); try exact Hs.
  all: destruct (n <? 3)%nat; try exact Hs.
  all: unfold get_bus; destruct (buses s !! this) as [self|] eqn:Hb; try exact Hs.
  all: destruct (HookStore.put _ _ _) as [e|[handle st]] eqn:Hput; try exact Hs.
  all: apply HookStoreFacts.put_keeps_flags in Hput as [Hm Hr].
  all: unfold set_bus; rewrite Hb; cbn [snd ret].
  all: eapply state_ok_put; eauto; apply with_store_ok; auto; apply Hs in Hb; auto.
Qed.

Lemma unhook_ok this needle s : state_ok s -> state_ok (exec (unhook this needle) s).
Proof.
  intros Hs. unfold exec.
  destruct (buses s !! this) as [self|] eqn:Hb.
  - rewrite (unhook_at _ _ _ _ Hb). cbn [snd].
    eapply state_ok_put; eauto. apply unhooked_ok. by eapply Hs.
  - unfold unhook, del_in, bind, get_bus. by rewrite Hb.
Qed.

Lemma register_ok this v mode s : state_ok s -> state_ok (exec (register this v mode) s).
Proof.
  intros Hs. unfold exec, register.
  destruct v; try exact Hs.
  destruct (String.length s0 =? 0)%nat; [exact Hs|].
  unfold bind, get_bus. destruct (buses s !! this) as [self|] eqn:Hb; [|exact Hs].
  destruct (member_truthy _); [exact Hs|].
  destruct (negb _); [exact Hs|].
  unfold set_bus. rewrite Hb. cbn [snd ret].
  eapply state_ok_put; eauto. apply with_events_ok. by eapply Hs.
Qed.

(** *** Emission through the shorthands *)

Lemma passes_envelope ty m args :
  includes MODES m = true ->
  passes (envelope (VStr ty) m args VUndefined) ty.
Proof.
  intros Hm. unfold passes, envelope, prop. cbn [truthy].
  repeat first [ rewrite lookup_insert_eq
               | rewrite lookup_insert_ne by done
               | rewrite lookup_empty ].
  cbn [default]. auto.
Qed.

Lemma passes_retyped props ty ty' :
  passes props ty -> passes (<["type" := VStr ty']> props) ty'.
Proof.
  intros (_ & Hm & Hcb). unfold passes, prop in *.
  repeat first [ rewrite lookup_insert_eq | rewrite lookup_insert_ne by done ].
  auto.
Qed.

(** *** Through prefixed instances to an instance without a source *)

Lemma prop_retyped props k v : k <> "type" ->
  prop (OPlain (<["type" := v]> props)) k = prop (OPlain props) k.
Proof. intros Hk. unfold prop. by rewrite lookup_insert_ne. Qed.

(** One prefixed instance, then an instance without a source. *)
Lemma next_through_one this d p s D root l props ty :
  wf s ->
  buses s !! d = Some D -> source D = Some this -> _prefix D = Some p ->
  p <> "" ->
  buses s !! this = Some root -> source root = None ->
  prefix_truthy (_prefix root) = false ->
  objs s !! l = Some (OPlain props) -> passes props ty ->
  let type := p +:+ "." +:+ ty in
  let copy := <["type" := VStr type]> props in
  next X d (VObj l) s =
  dispatch X this (VObj (length (objs s))) (with_obj (OPlain copy) s).
Proof.
  intros Hwf Hd Hsrc Hpre Hp Hb Hroot Hrpre Hl Hpass type copy.
  set (s' := with_obj (OPlain copy) s).
  assert (objs s' !! length (objs s) = Some (OPlain copy)) as Hl'.
  { cbn [s' with_obj objs]. rewrite lookup_app_r by lia.
    by rewrite Nat.sub_diag. }
  assert (passes copy type) as Hpass' by (by eapply passes_retyped).
  etransitivity;
    [exact (next_forward_prefixed _ l props ty s D this p Hwf Hl Hpass Hd
              Hsrc Hpre Hp)|].
  exact (next_local this _ copy type s' root Hl' Hpass' Hb Hroot Hrpre).
Qed.

(** *** Delegation paths *)

Lemma path_unique s d ps root :
  path s d ps root ->
  forall ps' root', path s d ps' root' -> ps' = ps /\ root' = root.
Proof.
  induction 1 as [r b Hb Hsrc|d b src ps root Hb Hsrc Hpath IH];
    intros ps' root' H'; inversion H'; subst; simplify_eq; [done|].
  destruct (IH _ _ ltac:(eassumption)) as [-> ->]. done.
Qed.

Lemma path_root_is_root s d ps root :
  path s d ps root ->
  exists b, buses s !! root = Some b /\ source b = None.
Proof. induction 1; eauto. Qed.

(** A step of a path, with the prefix named. *)
Lemma path_step_with s d b src p ps root :
  buses s !! d = Some b -> source b = Some src -> _prefix b = p ->
  path s src ps root -> path s d (p :: ps) root.
Proof. intros Hb Hs <- Hp. by eapply path_step. Qed.

(** *** Emission along a delegation path *)

Lemma path_buses s s' d ps root :
  buses s' = buses s -> path s d ps root -> path s' d ps root.
Proof.
  intros Hb. induction 1.
  - eapply path_root; [by rewrite Hb | done].
  - eapply path_step; [by rewrite Hb | done | done].
Qed.

Lemma with_objs_nil s : with_objs [] s = s.
Proof. unfold with_objs. rewrite app_nil_r. apply state_eta. Qed.

Lemma with_objs_cons o more s :
  with_objs more (with_obj o s) = with_objs (o :: more) s.
Proof.
  unfold with_objs, with_obj. cbn [buses objs world].
  by rewrite <- app_assoc.
Qed.

Lemma with_obj_as_objs o1 o2 s :
  with_obj o2 (with_obj o1 s) = with_objs [o1; o2] s.
Proof.
  unfold with_objs, with_obj. cbn [buses objs world].
  by rewrite <- app_assoc.
Qed.

Lemma retype_cons p ps ty :
  retype (p :: ps) ty =
  retype ps (if prefix_truthy p then default "" p +:+ "." +:+ ty else ty).
Proof. reflexivity. Qed.

Lemma next_along_path_gen s d ps root :
  path s d ps root ->
  forall rb, buses s !! root = Some rb -> prefix_truthy (_prefix rb) = false ->
  forall s0 l props ty l' arrived copies,
    buses s0 = buses s -> wf s0 ->
    objs s0 !! l = Some (OPlain props) -> passes props ty ->
    forwarded ps l props ty (length (objs s0)) = (l', arrived, copies) ->
    next X d (VObj l) s0 = dispatch X root (VObj l') (with_objs copies s0).
Proof.
  induction 1 as [r b Hb Hsrc|d b src ps root Hb Hsrc Hpath IH];
    intros rb Hrb Hrpre s0 l props ty l' arrived copies Hs0 Hwf Hl Hpass Hfw.
  - cbn in Hfw. injection Hfw as <- <- <-. rewrite with_objs_nil.
    assert (rb = b) as -> by congruence.
    eapply next_local; try done. by rewrite Hs0.
  - rewrite <- Hs0 in Hb.
    cbn [forwarded] in Hfw.
    destruct (prefix_truthy (_prefix b)) eqn:Hpre.
    + destruct (_prefix b) as [p|] eqn:Hp; [|discriminate].
      assert (p <> "") as Hne.
      { intros ->. discriminate. }
      cbn [default from_option id] in *.
      set (ty' := p +:+ "." +:+ ty) in *.
      set (props' := <["type" := VStr ty']> props) in *.
      destruct (forwarded ps (length (objs s0)) props' ty' (S (length (objs s0))))
        as [[l2 arrived2] copies2] eqn:Hfw2.
      injection Hfw as <- <- <-.
      rewrite (next_forward_prefixed d l props ty s0 b src p) by done.
      fold ty' props'. rewrite <- with_objs_cons.
      eapply (IH rb Hrb Hrpre (with_obj (OPlain props') s0)
                (length (objs s0)) props' ty'); try done.
      * cbn [with_obj objs]. rewrite lookup_app_r by lia.
        by rewrite Nat.sub_diag.
      * by eapply passes_retyped.
      * cbn [with_obj objs]. rewrite length_app. cbn [length].
        by rewrite Nat.add_1_r.
    + rewrite (next_forward_plain d l props ty s0 b src) by done.
      by eapply IH.
Qed.

Lemma forwarded_arrives ps : forall l props ty (os : list Obj) l' arrived copies,
  os !! l = Some (OPlain props) ->
  prop (OPlain props) "type" = VStr ty ->
  forwarded ps l props ty (length os) = (l', arrived, copies) ->
  (os ++ copies) !! l' = Some (OPlain arrived)
  /\ prop (OPlain arrived) "type" = VStr (retype ps ty)
  /\ (forall k, k <> "type" -> arrived !! k = props !! k)
  /\ length copies = length (List.filter prefix_truthy ps)
  /\ (forall i o, os !! i = Some o -> (os ++ copies) !! i = Some o).
Proof.
  induction ps as [|p ps IH]; intros l props ty os l' arrived copies Hl Hty Hfw.
  - cbn in Hfw. injection Hfw as <- <- <-. rewrite app_nil_r.
    by repeat split.
  - cbn [forwarded] in Hfw. rewrite retype_cons. cbn [List.filter].
    destruct (prefix_truthy p) eqn:Hpre.
    + set (ty' := default "" p +:+ "." +:+ ty) in *.
      set (props' := <["type" := VStr ty']> props) in *.
      destruct (forwarded ps (length os) props' ty' (S (length os)))
        as [[l2 arrived2] copies2] eqn:Hfw2.
      injection Hfw as <- <- <-.
      destruct (IH (length os) props' ty' (os ++ [OPlain props']) l2 arrived2
                  copies2) as (H1 & H2 & H3 & H4 & H5).
      * rewrite lookup_app_r by lia. by rewrite Nat.sub_diag.
      * unfold prop, props'. by rewrite lookup_insert_eq.
      * rewrite length_app. cbn [length]. by rewrite Nat.add_1_r.
      * rewrite <- app_assoc in H1, H5. cbn [app] in H1, H5.
        split; [done|]. split; [done|]. split.
        { intros k Hk. rewrite (H3 k Hk). unfold props'.
          by rewrite lookup_insert_ne. }
        split; [cbn [length]; by rewrite H4|].
        intros i o Hi. apply H5. by apply lookup_app_l_Some.
    + by eapply IH.
Qed.

(** *** The shorthands along a delegation path *)

Lemma envelope_props type m args cb :
  prop (OPlain (envelope type m args cb)) "type" = type
  /\ prop (OPlain (envelope type m args cb)) "mode" = m
  /\ prop (OPlain (envelope type m args cb)) "args" = args
  /\ prop (OPlain (envelope type m args cb)) "cb" =
     (if truthy cb then cb else VUndefined).
Proof.
  unfold envelope, prop. destruct (truthy cb);
    repeat first [ rewrite lookup_insert_eq
                 | rewrite lookup_insert_ne by done
                 | rewrite lookup_empty ];
    by repeat split.
Qed.

Lemma passes_envelope_cb ty mv args cb :
  includes MODES mv = true -> callback_ok cb ->
  passes (envelope (VStr ty) mv args cb) ty.
Proof.
  intros Hm Hcb. destruct (envelope_props (VStr ty) mv args cb)
    as (H1 & H2 & _ & H4).
  unfold passes. rewrite H1, H2, H4. split; [done|]. split; [done|].
  destruct Hcb as [Hcb|Hcb]; [rewrite Hcb; by left|].
  destruct (truthy cb); [by right | by left].
Qed.

Lemma mode_or_auto_ok m : mode_ok m -> includes MODES (mode_or_auto m) = true.
Proof.
  unfold mode_or_auto. intros [H|H].
  - by rewrite H.
  - by destruct (truthy m).
Qed.

Lemma _toot_resolved this ty m mv args cb s self :
  buses s !! this = Some self ->
  resolves self ty m mv ->
  _toot X this (VStr ty) m args cb s =
  (event <- createEvent (VStr ty) mv args cb;;; next X this event) s.
Proof.
  intros Hb [(Hev & Hinh & ->)|(re & Hev & Hm & ->)].
  - by eapply _toot_unregistered.
  - by eapply _toot_registered.
Qed.

(** A shorthand on an instance with a path to [root], once the mode is
    settled: the rest array, the envelope, the copies of the path, and
    the dispatch by [root]. *)
Lemma toot_as_along_path s d ps root self rb ty m mv args cb l' arrived copies :
  state_ok s ->
  path s d ps root ->
  buses s !! d = Some self ->
  buses s !! root = Some rb ->
  resolves self ty m mv ->
  includes MODES mv = true ->
  callback_ok cb ->
  let a := length (objs s) in
  let props := envelope (VStr ty) mv (VObj a) cb in
  forwarded ps (S a) props ty (S (S a)) = (l', arrived, copies) ->
  toot_as X d (VStr ty) m args cb s =
  dispatch X root (VObj l')
    (with_objs (OArray args :: OPlain props :: copies) s).
Proof.
  intros [Hwf Hok] Hpath Hd Hrb Hres Hmv Hcb a props Hfw.
  unfold toot_as. erewrite bind_Ret by reflexivity.
  fold (with_obj (OArray args) s). fold a.
  rewrite (_toot_resolved d ty m mv _ _ (with_obj (OArray args) s) self)
    by done.
  erewrite bind_Ret by (by apply createEvent_at).
  assert (length (objs (with_obj (OArray args) s)) = S a) as Hlen.
  { cbn [with_obj objs]. rewrite length_app. cbn [length]. unfold a. lia. }
  rewrite Hlen. fold props.
  set (s2 := with_obj (OPlain props) (with_obj (OArray args) s)).
  assert (objs s2 !! S a = Some (OPlain props)) as Hl.
  { cbn [s2 with_obj objs]. rewrite lookup_app_r; rewrite length_app;
      cbn [length]; fold a; [|lia].
    replace (S a - (a + 1)) with 0 by lia. reflexivity. }
  assert (length (objs s2) = S (S a)) as Hlen2.
  { cbn [s2 with_obj objs]. rewrite !length_app. cbn [length]. unfold a. lia. }
  destruct (path_root_is_root _ _ _ _ Hpath) as (b & Hb & Hsrc).
  assert (b = rb) as -> by congruence.
  rewrite (next_along_path_gen s d ps root Hpath rb Hrb
             (bus_ok_no_prefix _ (Hok _ _ Hrb) Hsrc)
             s2 (S a) props ty l' arrived copies eq_refl Hwf Hl
             (passes_envelope_cb ty mv (VObj a) cb Hmv Hcb)
             ltac:(by rewrite Hlen2)).
  unfold s2. rewrite !with_objs_cons. reflexivity.
Qed.

(** *** An event type that is no string *)

Lemma ToString_primitive_at v key s :
  ToString_primitive v = Some key -> ToString X v s = (Ret key, s).
Proof. unfold ToString. by intros ->. Qed.

Lemma next_bad_type this l o s :
  this < length (buses s) ->
  objs s !! l = Some o ->
  typeof (prop o "type") <> "string" ->
  next X this (VObj l) s =
  (Throw (TypeError "An event type must be a string"), s).
Proof. intros. rewrite next_unfold by done. by eapply next_body_bad_type. Qed.

Lemma bind_not_Ret {A B} (m : M World A) (k : A -> M World B) s :
  (forall a s1, m s = (Ret a, s1) -> forall x, fst (k a s1) <> Ret x) ->
  forall x, fst (bind m k s) <> Ret x.
Proof.
  unfold bind. intros Hk x.
  destruct (m s) as [[a|e|] s1] eqn:E; [by eapply Hk | done | done].
Qed.

Lemma next_not_string_not_Ret this l o s :
  objs s !! l = Some o ->
  typeof (prop o "type") <> "string" ->
  forall x, fst (next X this (VObj l) s) <> Ret x.
Proof.
  intros Hl Hty x. unfold next. destruct (length (buses s)); [done|].
  cbn [next_rec]. by rewrite (next_body_bad_type _ _ _ _ _ Hl Hty).
Qed.

(** Whatever the registry says and whatever the conversion to a key
    does, [_toot] does not return for an event type that is no string. *)
Lemma _toot_not_string this v m args cb s :
  typeof v <> "string" -> truthy args = true ->
  forall x, fst (_toot X this v m args cb s) <> Ret x.
Proof.
  intros Hty Hargs. unfold _toot.
  apply bind_not_Ret. intros key s1 _.
  apply bind_not_Ret. intros self s2 _.
  apply bind_not_Ret. intros mode s3 _.
  apply bind_not_Ret. intros event s4 Hce.
  rewrite createEvent_at in Hce by done. injection Hce as <- <-.
  eapply next_not_string_not_Ret.
  - cbn [with_obj objs]. rewrite lookup_app_r by lia. by rewrite Nat.sub_diag.
  - by destruct (envelope_props v mode args cb) as [-> _].
Qed.

(** ** The claims about emission *)

(** C1, as the code has it.  An emission that [next] processes on the
    instance itself (no source) first delivers the event to the
    subscribers and then builds one list from the stores and the
    envelope as delivery has left them: the hooks of the before-store
    whose pattern matches the type, in insertion order, then those of
    the main store, in insertion order, then those of the after-store,
    in reverse insertion order, each [fn] bound to the event, and last
    the [cb] of the envelope if it is truthy; a falsy [cb] is left out.
    That list is what the sequencing capability receives.  ([hooks] is
    in insertion order: see [HookStoreFacts.put_appends].) *)
Theorem next_invocation_list this l props ty s self :
  objs s !! l = Some (OPlain props) ->
  passes props ty ->
  buses s !! this = Some self ->
  bus_ok self ->
  source self = None ->
  let event := VObj l in
  next X this event s = dispatch X this event s
  /\ forall s1 self1 o1 ty1,
       Subject_next X this event s = (Returned tt, s1) ->
       buses s1 !! this = Some self1 ->
       bus_ok self1 ->
       objs s1 !! l = Some o1 ->
       prop o1 "type" = VStr ty1 ->
       let cb := prop o1 "cb" in
       let bound := map (fun h => VBound (HookStore.fn h) event) in
       let matching st :=
         List.filter (fun h => match_ ty1 (HookStore.pattern h))
           (HookStore.hooks st) in
       let hooks :=
         bound (matching (hookStoreBefore self1))
         ++ bound (matching (hookStore self1))
         ++ bound (rev (matching (hookStoreAfter self1))) in
       let handlers := hooks ++ (if truthy cb then [cb] else []) in
       next X this event s = invoke X this event handlers s1
       /\ (handlers <> [] ->
           next X this event s =
           (composed <-
              on_state (corrie_compose X (corrie self1)
                          (entry_of (prop o1 "mode")) handlers);;;
            args <- get_prop event "args";;;
            argv <- spread args;;;
            on_state (call_function X composed argv)) s1)
       /\ (truthy cb = true -> last handlers = Some cb)
       /\ (truthy cb = false -> handlers = hooks).
Proof.
  intros Hl Hp Hb Hok Hsrc event. subst event.
  pose proof (next_local _ _ _ _ _ _ Hl Hp Hb Hsrc
                (bus_ok_no_prefix _ Hok Hsrc)) as Hnext.
  split; [exact Hnext|].
  intros s1 self1 o1 ty1 Hn Hb1 Hok1 Hl1 Hty1 cb bound matching hooks handlers.
  assert (next X this (VObj l) s = invoke X this (VObj l) handlers s1) as Hinv.
  { rewrite Hnext.
    rewrite (dispatch_delivered _ _ _ _ _ _ _ Hn Hb1 Hl1 Hty1).
    rewrite (handlers_for_phases self1 (VObj l) ty1 (prop o1 "cb") Hok1).
    fold cb. unfold handlers, hooks, matching, bound.
    by rewrite <- !app_assoc. }
  split; [exact Hinv|]. split; [|split].
  - intros Hne. rewrite Hinv. by eapply invoke_handlers.
  - intros Hcb. unfold handlers. rewrite Hcb. apply last_snoc.
  - intros Hcb. unfold handlers. rewrite Hcb. apply app_nil_r.
Qed.


(** C5, as the code has it.  [next] throws, with the state as it was
    (nothing delivered, no hook run): a [TypeError] for an event that is
    no object; a [TypeError] for a [type] that is no string; an [Error]
    for a [mode] outside the four (the plain one with the message about
    modes once the type is a string); a [TypeError] for a [cb] that is
    truthy and no function, when the mode is one of the four.  (A falsy
    [cb] counts as no [cb], and a wrong mode is reported before a wrong
    [cb].) *)
Theorem next_checks this event s :
  this < length (buses s) ->
  (not_an_object event = true ->
   next X this event s = (Throw (TypeError "An event must be an object"), s))
  /\ (forall l o, event = VObj l -> objs s !! l = Some o ->
      (typeof (prop o "type") <> "string" ->
       next X this event s =
       (Throw (TypeError "An event type must be a string"), s))
      /\ (includes MODES (prop o "mode") = false ->
          exists e,
            next X this event s = (Throw e, s)
            /\ instanceof_Error e = true
            /\ (typeof (prop o "type") = "string" ->
                e = Error ("An event mode must be either " +:+ dq +:+ "auto"
                           +:+ dq +:+ ", asIs" +:+ dq +:+ ", " +:+ dq +:+ "sync"
                           +:+ dq +:+ " or " +:+ dq +:+ "async" +:+ dq)))
      /\ (includes MODES (prop o "mode") = true ->
          truthy (prop o "cb") = true ->
          typeof (prop o "cb") <> "function" ->
          exists msg, next X this event s = (Throw (TypeError msg), s))).
Proof.
  intros Hlt. rewrite next_unfold by done. split.
  - apply next_body_not_object.
  - intros l o -> Hl. split; [|split].
    + by eapply next_body_bad_type.
    + intros Hmode.
      destruct (decide (typeof (prop o "type") = "string")) as [Hty|Hty].
      * eexists. split; [by eapply next_body_bad_mode|]. by split.
      * eexists. split; [by eapply next_body_bad_type|]. by split.
    + intros Hmode Hcb Hfn.
      destruct (decide (typeof (prop o "type") = "string")) as [Hty|Hty].
      * eexists. by eapply next_body_bad_cb.
      * eexists. by eapply next_body_bad_type.
Qed.

(** C8, as the code has it.  The type of an accepted envelope is a
    string, possibly the empty one.  On any instance [d], with or
    without sources: [next] refuses an event whose [type] is no string
    with a [TypeError], whatever its mode, and no shorthand returns for
    an event type that is no string (for a primitive it throws the
    [TypeError] of [next] with nothing delivered, unless the type as a
    key names a registered event and the shorthand forces a mode, which
    is the [Error] of [_toot]).  An envelope whose [type] is the empty
    string, in any of the four modes, passes the checks of [next] and
    is delivered by the root of the path; so is the envelope that any
    of the shorthands builds for the empty type, with or without a
    callback.  Only [register] asks for a non-empty type. *)
Theorem next_type_is_a_string s d ps root self :
  state_ok s ->
  path s d ps root ->
  buses s !! d = Some self ->
  let a := length (objs s) in
  (forall l o, objs s !! l = Some o ->
     typeof (prop o "type") <> "string" ->
     next X d (VObj l) s =
     (Throw (TypeError "An event type must be a string"), s))
  /\ (forall v m args cb x,
        typeof v <> "string" -> fst (toot_as X d v m args cb s) <> Ret x)
  /\ (forall v key m args cb,
        typeof v <> "string" -> ToString_primitive v = Some key ->
        let found := events_get (events self) key in
        toot_as X d v m args cb s =
        if member_truthy found && truthy m
        then (Throw (Error ("Event " +:+ dq +:+ key +:+ dq
                            +:+ " is a registered event"
                            +:+ "and shouldn't be tooted with a custom mode")),
              with_obj (OArray args) s)
        else (Throw (TypeError "An event type must be a string"),
              with_objs
                [OArray args;
                 OPlain (envelope v
                           (if member_truthy found then member_mode found
                            else mode_or_auto m)
                           (VObj a) cb)] s))
  /\ (forall l props l' arrived copies,
        objs s !! l = Some (OPlain props) -> passes props "" ->
        forwarded ps l props "" (length (objs s)) = (l', arrived, copies) ->
        next X d (VObj l) s = dispatch X root (VObj l') (with_objs copies s)
        /\ objs (with_objs copies s) !! l' = Some (OPlain arrived)
        /\ prop (OPlain arrived) "type" = VStr (retype ps ""))
  /\ (events self !! "" = None ->
      forall m args cb l' arrived copies,
        mode_ok m -> callback_ok cb ->
        let props := envelope (VStr "") (mode_or_auto m) (VObj a) cb in
        forwarded ps (S a) props "" (S (S a)) = (l', arrived, copies) ->
        toot_as X d (VStr "") m args cb s =
        dispatch X root (VObj l')
          (with_objs (OArray args :: OPlain props :: copies) s))
  /\ (forall m,
        register d (VStr "") m s =
        (Throw (Error "An event type must be a non-empty string"), s)).
Proof.
  intros Hs Hpath Hd a.
  pose proof (lookup_lt_Some _ _ _ Hd) as Hlt.
  split; [|split; [|split; [|split; [|split]]]].
  - intros l o Hl Hty. by eapply next_bad_type.
  - intros v m args cb x Hty. unfold toot_as.
    erewrite bind_Ret by reflexivity. by apply _toot_not_string.
  - intros v key m args cb Hty Hkey found. unfold toot_as.
    erewrite bind_Ret by reflexivity. fold (with_obj (OArray args) s).
    unfold _toot.
    erewrite bind_Ret by (by apply ToString_primitive_at).
    erewrite bind_Ret by (by apply get_bus_at). fold found.
    destruct (member_truthy found && truthy m) eqn:Hforced.
    + apply andb_prop in Hforced as [-> ->].
      erewrite bind_Throw; [reflexivity|].
      by erewrite bind_Ret by (by apply ToString_primitive_at).
    + set (mv := if member_truthy found then member_mode found
                 else mode_or_auto m).
      erewrite (bind_Ret _ _ _ mv).
      2:{ unfold mv, mode_or_auto.
          destruct (member_truthy found); [|reflexivity].
          cbn [andb] in Hforced. by rewrite Hforced. }
      erewrite bind_Ret by (by apply createEvent_at).
      rewrite with_obj_as_objs.
      assert (length (objs (with_obj (OArray args) s)) = S a) as ->.
      { cbn [with_obj objs]. rewrite length_app. cbn [length]. unfold a. lia. }
      eapply next_bad_type.
      * exact Hlt.
      * cbn [with_objs objs]. rewrite lookup_app_r by (fold a; lia). fold a.
        replace (S a - a) with 1 by lia. reflexivity.
      * by destruct (envelope_props v mv (VObj a) cb) as [-> _].
  - intros l props l' arrived copies Hl Hp Hfw.
    destruct (path_root_is_root _ _ _ _ Hpath) as (rb & Hrb & Hsrc).
    destruct (forwarded_arrives ps l props "" (objs s) l' arrived copies Hl
                (proj1 Hp) Hfw) as (H1 & H2 & _).
    split; [|by split].
    eapply (next_along_path_gen s d ps root Hpath rb Hrb); try done.
    + by eapply bus_ok_no_prefix; [eapply Hs|].
    + apply Hs.
  - intros Hev m args cb l' arrived copies Hm Hcb props Hfw.
    destruct (path_root_is_root _ _ _ _ Hpath) as (rb & Hrb & Hsrc).
    eapply (toot_as_along_path s d ps root self rb "" m (mode_or_auto m));
      try done.
    + left. by repeat split.
    + by apply mode_or_auto_ok.
  - intros m. apply register_empty.
Qed.

(** C2, as the code has it.  For a registered type, a truthy [mode]
    makes [_toot] throw an [Error] with the state untouched: no envelope
    was built, nothing was delivered, no hook ran.  For a registered type
    and a falsy [mode] the envelope carries the registered mode.  For a
    type that is neither registered nor a name every object inherits,
    and a falsy [mode], the envelope carries [auto]. *)
Theorem toot_resolves_mode this ty mode0 args cb s self :
  buses s !! this = Some self ->
  (forall re, events self !! ty = Some re -> truthy mode0 = true ->
     _toot X this (VStr ty) mode0 args cb s =
     (Throw (Error ("Event " +:+ dq +:+ ty +:+ dq +:+ " is a registered event"
                    +:+ "and shouldn't be tooted with a custom mode")), s))
  /\ (forall re, events self !! ty = Some re -> truthy mode0 = false ->
      _toot X this (VStr ty) mode0 args cb s =
      (event <- createEvent (VStr ty) (mode re) args cb;;;
       next X this event) s)
  /\ (events self !! ty = None -> inherited ty = false ->
      truthy mode0 = false ->
      _toot X this (VStr ty) mode0 args cb s =
      (event <- createEvent (VStr ty) (VStr "auto") args cb;;;
       next X this event) s).
Proof.
  intros Hb. repeat split.
  - intros re Hre Hm. by eapply _toot_custom_mode.
  - intros re Hre Hm. by eapply _toot_registered.
  - intros Hre Hinh Hm.
    rewrite (_toot_unregistered _ _ _ _ _ _ _ Hb Hre Hinh). by rewrite Hm.
Qed.

(** C3, as the code has it.  [prefix] refuses what is no string with a
    [TypeError].  For a string [p] it adds an instance [d] whose source
    is the current instance, leaving the existing instances as they are.
    Whatever state comes later, as long as [d] keeps that source and
    prefix (its stores may hold any hooks), an emission of an accepted
    envelope on [d] is an emission on the source: for a non-empty [p],
    of a fresh object that has the properties of the envelope except for
    the type [p.type], the envelope itself staying as it was; for the
    empty [p], of the envelope itself.  When the source has no source of
    its own, it is the source that delivers the copy to its subscribers,
    and the handlers are then those of the source, as delivery has left
    it, for the type the copy then has: the stores of [d] play no
    part. *)
Theorem prefix_derives this p s self :
  wf s ->
  buses s !! this = Some self ->
  (forall v, typeof v <> "string" ->
     prefix this v s = (Throw (TypeError "A prefix must be a string"), s))
  /\ exists d s1 derived,
       prefix this (VStr p) s = (Ret d, s1)
       /\ buses s !! d = None
       /\ buses s1 !! d = Some derived
       /\ source derived = Some this
       /\ _prefix derived = Some p
       /\ wf s1
       /\ (forall r b, buses s !! r = Some b -> buses s1 !! r = Some b)
       /\ forall s' derived' l props ty,
            wf s' ->
            buses s' !! d = Some derived' ->
            source derived' = Some this -> _prefix derived' = Some p ->
            objs s' !! l = Some (OPlain props) -> passes props ty ->
            (p <> "" ->
             let type := p +:+ "." +:+ ty in
             let copy := VObj (length (objs s')) in
             let s'' := with_obj (OPlain (<["type" := VStr type]> props)) s' in
             next X d (VObj l) s' = next X this copy s''
             /\ objs s'' !! l = Some (OPlain props)
             /\ copy <> VObj l
             /\ objs s'' !! length (objs s') =
                Some (OPlain (<["type" := VStr type]> props))
             /\ forall root,
                  buses s' !! this = Some root -> source root = None ->
                  prefix_truthy (_prefix root) = false ->
                  next X d (VObj l) s' = dispatch X this copy s''
                  /\ forall s1 root1 o1 ty1,
                       Subject_next X this copy s'' = (Returned tt, s1) ->
                       buses s1 !! this = Some root1 ->
                       objs s1 !! length (objs s') = Some o1 ->
                       prop o1 "type" = VStr ty1 ->
                       next X d (VObj l) s' =
                       invoke X this copy
                         (handlers_for root1 copy ty1 (prop o1 "cb")) s1)
            /\ (p = "" -> next X d (VObj l) s' = next X this (VObj l) s').
Proof.
  intros Hwf Hb. split; [intros v; apply prefix_not_string|].
  eexists _, _, _. split; [by eapply prefix_string|].
  cbn [buses]. split; [apply lookup_ge_None; lia|].
  split; [rewrite lookup_app_r by lia; by rewrite Nat.sub_diag|].
  split; [reflexivity|]. split; [reflexivity|].
  split.
  { apply wf_snoc; [done|]. intros j [= <-]. by eapply lookup_lt_Some. }
  split; [intros r b Hr; by apply lookup_app_l_Some|].
  intros s' derived' l props ty Hwf' Hd Hsrc Hpre Hl Hpass. split.
  - intros Hp.
    split; [by eapply next_forward_prefixed|].
    split; [cbn [with_obj objs]; by apply lookup_app_l_Some|].
    split; [intros [= Heq]; apply lookup_lt_Some in Hl; lia|].
    split.
    { cbn [with_obj objs]. rewrite lookup_app_r by lia.
      by rewrite Nat.sub_diag. }
    intros root Hroot Hrsrc Hrpre.
    pose proof (next_through_one this _ p s' derived' root l props ty Hwf'
                  Hd Hsrc Hpre Hp Hroot Hrsrc Hrpre Hl Hpass) as Hnext.
    cbv zeta in Hnext. split; [exact Hnext|].
    intros s1 root1 o1 ty1 Hn Hb1 Hl1 Hty1. rewrite Hnext.
    by eapply dispatch_delivered.
  - intros ->. eapply next_forward_plain; try done. by rewrite Hpre.
Qed.

(** C9.  [unhook(id)] never throws and removes the hook from the three
    stores: afterwards no lookup, in any phase and for any type, returns
    a hook with that id, while the hooks with other ids stay; a second
    [unhook(id)] returns as well and changes nothing. *)
Theorem unhook_removes this needle s self :
  buses s !! this = Some self ->
  exists s' self',
    unhook this needle s = (Ret VUndefined, s')
    /\ buses s' !! this = Some self'
    /\ (forall phase ty h,
          In h (HookStore.get ty (store_of phase self')) ->
          HookStore.id h <> needle)
    /\ (forall phase h,
          In h (HookStore.hooks (store_of phase self')) <->
          In h (HookStore.hooks (store_of phase self)) /\ HookStore.id h <> needle)
    /\ unhook this needle s' = (Ret VUndefined, s').
Proof.
  intros Hb. pose proof (lookup_lt_Some _ _ _ Hb) as Hlt.
  exists (put_bus this (unhooked needle self) s), (unhooked needle self).
  split; [by apply unhook_at|].
  split; [by apply put_bus_lookup|].
  split.
  { intros phase ty h. rewrite unhooked_store. apply HookStoreFacts.get_del. }
  split.
  { intros phase h. rewrite unhooked_store. apply HookStoreFacts.del_In. }
  rewrite (unhook_at this needle _ (unhooked needle self))
      by (by apply put_bus_lookup).
    by rewrite unhooked_twice, put_bus_put_bus.
Qed.

(** Two prefixed instances in a row, then an instance without a source. *)
Lemma next_through_two this d1 d2 p q s D1 D2 root l props T :
  wf s ->
  buses s !! d2 = Some D2 -> source D2 = Some d1 -> _prefix D2 = Some q ->
  q <> "" ->
  buses s !! d1 = Some D1 -> source D1 = Some this -> _prefix D1 = Some p ->
  p <> "" ->
  buses s !! this = Some root -> source root = None ->
  prefix_truthy (_prefix root) = false ->
  objs s !! l = Some (OPlain props) -> passes props T ->
  let type := p +:+ "." +:+ q +:+ "." +:+ T in
  let inner := <["type" := VStr (q +:+ "." +:+ T)]> props in
  let outer := <["type" := VStr type]> inner in
  next X d2 (VObj l) s =
  dispatch X this (VObj (S (length (objs s))))
    (with_obj (OPlain outer) (with_obj (OPlain inner) s)).
Proof.
  intros Hwf Hd2 Hs2 Hp2 Hq Hd1 Hs1 Hp1 Hp Hb Hroot Hpre Hl Hpass
    type inner outer.
  set (s3 := with_obj (OPlain inner) s).
  set (s4 := with_obj (OPlain outer) s3).
  assert (objs s3 !! length (objs s) = Some (OPlain inner)) as Hl3.
  { cbn [s3 with_obj objs]. rewrite lookup_app_r by lia.
    by rewrite Nat.sub_diag. }
  assert (length (objs s3) = S (length (objs s))) as Hlen.
  { cbn [s3 with_obj objs]. rewrite length_app. cbn [length]. lia. }
  assert (objs s4 !! S (length (objs s)) = Some (OPlain outer)) as Hl4.
  { cbn [s4 with_obj objs]. rewrite lookup_app_r by lia.
    rewrite Hlen. by rewrite Nat.sub_diag. }
  assert (passes inner (q +:+ "." +:+ T)) as Hpass3
    by (by eapply passes_retyped).
  assert (passes outer type) as Hpass4 by (by eapply passes_retyped).
  etransitivity;
    [exact (next_forward_prefixed _ l props T s D2 d1 q Hwf Hl Hpass Hd2
              Hs2 Hp2 Hq)|].
  etransitivity;
    [exact (next_forward_prefixed d1 _ inner _ s3 D1 this p
              (wf_with_obj _ _ Hwf) Hl3 Hpass3 Hd1 Hs1 Hp1 Hp)|].
  fold type outer s4. rewrite Hlen.
  exact (next_local this _ outer type s4 root Hl4 Hpass4 Hb Hroot Hpre).
Qed.

(** C10, as the code has it.  For non-empty [p] and [q] and an instance
    without a source, [this.prefix(p).prefix(q)] makes two instances
    [d1] and [d2]; and whatever state comes later, as long as the three
    instances keep their sources and prefixes, an accepted envelope of
    type [T] emitted on [d2] reaches the dispatch of [this] as a fresh
    object of type [p.q.T] that has the other properties of the
    envelope: the inner instance prepends [q], then the outer one
    prepends [p]. *)
Theorem prefix_composes this p q s root :
  state_ok s ->
  buses s !! this = Some root ->
  source root = None ->
  p <> "" -> q <> "" ->
  exists d1 s1 d2 s2 D1 D2,
    prefix this (VStr p) s = (Ret d1, s1)
    /\ prefix d1 (VStr q) s1 = (Ret d2, s2)
    /\ wf s2
    /\ buses s2 !! this = Some root
    /\ buses s2 !! d1 = Some D1 /\ source D1 = Some this /\ _prefix D1 = Some p
    /\ buses s2 !! d2 = Some D2 /\ source D2 = Some d1 /\ _prefix D2 = Some q
    /\ forall s' D1' D2' root' l props T,
         wf s' ->
         buses s' !! this = Some root' -> source root' = None ->
         prefix_truthy (_prefix root') = false ->
         buses s' !! d1 = Some D1' ->
         source D1' = Some this -> _prefix D1' = Some p ->
         buses s' !! d2 = Some D2' ->
         source D2' = Some d1 -> _prefix D2' = Some q ->
         objs s' !! l = Some (OPlain props) -> passes props T ->
         let type := p +:+ "." +:+ q +:+ "." +:+ T in
         let inner := <["type" := VStr (q +:+ "." +:+ T)]> props in
         let outer := <["type" := VStr type]> inner in
         let delivered := VObj (S (length (objs s'))) in
         let s'' := with_obj (OPlain outer) (with_obj (OPlain inner) s') in
         next X d2 (VObj l) s' = dispatch X this delivered s''
         /\ objs s'' !! S (length (objs s')) = Some (OPlain outer)
         /\ prop (OPlain outer) "type" = VStr type
         /\ (forall k, k <> "type" ->
             prop (OPlain outer) k = prop (OPlain props) k).
Proof.
  intros Hok Hb Hroot Hp Hq.
  pose proof (lookup_lt_Some _ _ _ Hb) as Hlt.
  set (B1 := with_prefix p (with_source this (new_Hooter VUndefined))).
  set (s1 := {| buses := buses s ++ [B1]; objs := objs s; world := world s |}).
  set (d1 := length (buses s)).
  set (B2 := with_prefix q (with_source d1 (new_Hooter VUndefined))).
  set (s2 := {| buses := buses s1 ++ [B2]; objs := objs s1; world := world s1 |}).
  assert (buses s1 !! d1 = Some B1) as Hd1.
  { cbn [s1 buses]. rewrite lookup_app_r by (unfold d1; lia).
    unfold d1. by rewrite Nat.sub_diag. }
  exists d1, s1, (length (buses s1)), s2, B1, B2.
  split; [by apply (prefix_string this p s root)|].
  split; [by apply (prefix_string d1 q s1 B1)|].
  split.
  { apply wf_snoc.
    - apply wf_snoc; [apply Hok|]. intros j [= <-]. done.
    - intros j [= <-]. by eapply lookup_lt_Some. }
  split; [cbn [s2 s1 buses]; by do 2 apply lookup_app_l_Some|].
  split; [cbn [s2 buses]; by apply lookup_app_l_Some|].
  split; [reflexivity|]. split; [reflexivity|].
  split; [cbn [s2 buses]; rewrite lookup_app_r by lia; by rewrite Nat.sub_diag|].
  split; [reflexivity|]. split; [reflexivity|].
  intros s' D1 D2 root' l props T Hwf' Hb' Hroot' Hpre' HD1 Hs1 Hp1 HD2 Hs2 Hp2
    Hl Hpass type inner outer delivered s''.
  split; [|split; [|split]].
  - by eapply (next_through_two this d1 (length (buses s1)) p q s' D1 D2 root').
  - cbn [s'' with_obj objs]. rewrite lookup_app_r; rewrite length_app;
      cbn [length]; [|lia].
    replace (S (length (objs s')) - (length (objs s') + 1)) with 0 by lia.
    reflexivity.
  - unfold prop, outer. by rewrite lookup_insert_eq.
  - intros k Hk. unfold outer, inner. by rewrite !prop_retyped.
Qed.

End BusFacts.

(** The comparison of [match] does not depend on the order of its
    arguments. *)
Lemma match_sym a b : match_ a b = match_ b a.
Proof. apply WildcardFacts.matchSegments_sym. Qed.

(** ** The claims about matching, registration and the scenarios *)

(** C4.  [match] cuts both strings at the dots and compares segment by
    segment.  For a concrete type and any pattern it decides the
    segment-wildcard rule, so a lookup in a store that uses it returns
    exactly the stored hooks whose pattern the rule accepts; [user.*]
    takes [user.created] and neither [user.created.v2] nor
    [order.created]; [**] takes every type. *)
Theorem match_segment_wildcards :
  (forall T P,
     Wildcard.concrete (Wildcard.split "." T) ->
     match_ T P = true <->
     Wildcard.rule (Wildcard.split "." P) (Wildcard.split "." T))
  /\ (forall store T h,
        HookStore.matcher store = match_ ->
        Wildcard.concrete (Wildcard.split "." T) ->
        In h (HookStore.get T store) <->
        In h (HookStore.hooks store)
        /\ Wildcard.rule (Wildcard.split "." (HookStore.pattern h))
             (Wildcard.split "." T))
  /\ match_ "user.created" "user.*" = true
  /\ match_ "user.created.v2" "user.*" = false
  /\ match_ "order.created" "user.*" = false
  /\ (forall T, match_ T "**" = true).
Proof.
  split; [|split; [|repeat split]].
  - intros T P HT. by apply WildcardFacts.matchSegments_rule.
  - intros store T h Hm HT.
    rewrite HookStoreFacts.get_In, Hm.
    unfold match_, Wildcard.wildcardMatch.
    by rewrite (WildcardFacts.matchSegments_rule _ HT).
  - intros T. apply WildcardFacts.matchSegments_glob.
Qed.

Lemma match_segment_wildcards_witness :
  In {| HookStore.id := 0; HookStore.pattern := "user.*"; HookStore.fn := VFun 11 |}
     (HookStore.get "user.created" (hookStore (Scenario.bus0 Scenario.hooked)))
  <-> In {| HookStore.id := 0; HookStore.pattern := "user.*"; HookStore.fn := VFun 11 |}
         (HookStore.hooks (hookStore (Scenario.bus0 Scenario.hooked)))
      /\ Wildcard.rule ["user"; "*"] ["user"; "created"].
Proof.
  apply (proj1 (proj2 match_segment_wildcards)
           (hookStore (Scenario.bus0 Scenario.hooked)) "user.created").
  - reflexivity.
  - repeat constructor; discriminate.
Defined.

(** C7, at the input where the code departs from it.  On a bus where
    nothing was registered, [register('constructor', 'sync')] has a
    non-empty string, an unused name and a valid mode, and still throws
    "already registered": the registry lookup finds the member every
    object literal inherits.  The registry stays empty. *)
Theorem register_inherited_name :
  events (Scenario.bus0 Scenario.fresh) !! "constructor" = None
  /\ includes MODES (VStr "sync") = true
  /\ register 0 (VStr "constructor") (VStr "sync") Scenario.fresh =
     (Throw (Error ("Event " +:+ dq +:+ "constructor" +:+ dq
                    +:+ " is already registered")),
      Scenario.fresh).
Proof. repeat split. Qed.

(** ** Instances and departures *)

Module Checks.
Import Scenario.

(** Well-formedness of a given list of instances, one index at a time. *)
Local Ltac wf_now :=
  let r := fresh "r" in
  let Hr := fresh "Hr" in
  let Hs := fresh "Hs" in
  intros r ? ? Hr Hs;
  repeat (destruct r as [|r];
          [vm_compute in Hr; injection Hr as <-; vm_compute in Hs;
           first [discriminate | injection Hs as <-; lia] |]);
  vm_compute in Hr; discriminate.

Local Ltac passes_now :=
  split; [reflexivity | split; [reflexivity | first [left; reflexivity | right; reflexivity]]].

(** The invariant of a given list of instances. *)
Local Ltac ok_now :=
  let r := fresh "r" in
  let Hr := fresh "Hr" in
  split; [wf_now|];
  intros r ? Hr;
  repeat (destruct r as [|r];
          [injection Hr as <-; repeat split; discriminate |]);
  discriminate.

Local Ltac path_now :=
  repeat (eapply path_step_with; [reflexivity | reflexivity | reflexivity |]);
  eapply path_root; reflexivity.

(** The crowded bus, event [user.created] in mode [sync] with a
    callback, and a subscriber that hooks a sixth function while the
    event is delivered: the start hook, then the middle hooks that
    match, the late one among them, then the end hooks, the later one
    first, then the callback as it is.  The hook for [order.*] is not in
    the list. *)
Lemma next_invocation_list_witness :
  let s := submit user_created_cb [VNum 42] crowded in
  let s1 := snd (Subject_next late_hook 0 (VObj 1) s) in
  next late_hook 0 (VObj 1) s =
  invoke late_hook 0 (VObj 1)
    [VBound (VFun 10) (VObj 1); VBound (VFun 11) (VObj 1);
     VBound (VFun 99) (VObj 1); VBound (VFun 13) (VObj 1);
     VBound (VFun 12) (VObj 1); VFun 5] s1.
Proof.
  intros s s1.
  destruct (next_invocation_list late_hook 0 1 user_created_cb "user.created"
              s (bus0 s)) as [_ Hlist].
  - reflexivity.
  - passes_now.
  - reflexivity.
  - repeat split.
  - reflexivity.
  - refine (proj1 (Hlist s1 (bus0 s1) (OPlain user_created_cb) "user.created"
                     _ _ _ _ _)).
    + reflexivity.
    + reflexivity.
    + repeat split.
    + reflexivity.
    + reflexivity.
Defined.

(** C1 as stated fails here: the envelope has a [cb], the number 0, and
    it passes the checks; the list that the sequencing capability
    receives on the hooked bus holds the four hooks and no [cb]. *)
Lemma next_cb_not_appended_counterexample :
  let s := submit user_created_zero [VNum 42] hooked in
  let handlers :=
    [VBound (VFun 10) (VObj 1); VBound (VFun 11) (VObj 1);
     VBound (VFun 13) (VObj 1); VBound (VFun 12) (VObj 1)] in
  objs s !! 1 = Some (OPlain user_created_zero)
  /\ user_created_zero !! "cb" = Some (VNum 0)
  /\ fst (next spy 0 (VObj 1) s) = Ret VUndefined
  /\ world (snd (next spy 0 (VObj 1) s)) =
     [Delivered 0 (VObj 1);
      Composed CorrieDefault (EntryMember (VStr "sync")) handlers;
      Called composed_fn [VNum 42]]
  /\ last handlers <> Some (VNum 0)
  /\ objs (snd (next spy 0 (VObj 1) s)) !! 1 = Some (OPlain user_created_zero).
Proof. repeat split. discriminate. Qed.


(** C5 as stated fails here: the envelope has a [cb], the number 0, and
    0 is not callable, yet [next] delivers the event and returns. *)
Lemma next_falsy_cb_counterexample :
  let s := submit with_cb_zero [] fresh in
  objs s !! 1 = Some (OPlain with_cb_zero)
  /\ with_cb_zero !! "cb" = Some (VNum 0)
  /\ typeof (VNum 0) <> "function"
  /\ next spy 0 (VObj 1) s =
     (Ret VUndefined, with_world [Delivered 0 (VObj 1)] s).
Proof. repeat split. discriminate. Qed.

(** A [cb] that is the number 1 is refused. *)
Lemma next_checks_witness :
  let s := submit (<["cb" := VNum 1]> with_cb_zero) [] fresh in
  exists msg, next spy 0 (VObj 1) s = (Throw (TypeError msg), s).
Proof.
  intros s.
  exact (proj2 (proj2 (proj2 (next_checks spy 0 (VObj 1) s
                                ltac:(vm_compute; lia)) 1
                               (OPlain (<["cb" := VNum 1]> with_cb_zero))
                               eq_refl eq_refl))
           eq_refl eq_refl ltac:(discriminate)).
Defined.

(** C8 as stated fails here: an envelope whose type is the empty string
    is delivered, in each of the four modes, and so is [toot('')]. *)
Lemma next_empty_type_counterexample :
  (forall m, In m MODES ->
     let s := submit (untyped m) [] fresh in
     prop (OPlain (untyped m)) "type" = VStr ""
     /\ next spy 0 (VObj 1) s =
        (Ret VUndefined, with_world [Delivered 0 (VObj 1)] s))
  /\ fst (toot spy 0 (VStr "") [] fresh) = Ret VUndefined
  /\ world (snd (toot spy 0 (VStr "") [] fresh)) = [Delivered 0 (VObj 1)].
Proof.
  split; [|split; reflexivity].
  intros m [<-|[<-|[<-|[<-|[]]]]]; split; reflexivity.
Qed.

(** On [prefix('billing')]: an envelope whose type is the number 7 is
    refused, and so is [tootSync(7)]; [tootSyncWith('', cb)] is
    delivered by instance 0, as a copy of type [billing.] in mode
    [sync], and the callback is what the sequencing capability gets. *)
Lemma next_type_is_a_string_witness :
  let s := submit (<["type" := VNum 7]> charged) [] (prefixed "billing") in
  next spy 1 (VObj 1) s =
  (Throw (TypeError "An event type must be a string"), s)
  /\ fst (tootSync spy 1 (VNum 7) [] s) =
     Throw (TypeError "An event type must be a string")
  /\ world (snd (tootSync spy 1 (VNum 7) [] s)) = []
  /\ world (snd (tootSyncWith spy 1 (VStr "") (VFun 5) [] s)) =
     [Delivered 0 (VObj 4);
      Composed CorrieDefault (EntryMember (VStr "sync")) [VFun 5];
      Called composed_fn []]
  /\ (forall o, objs (snd (tootSyncWith spy 1 (VStr "") (VFun 5) [] s)) !! 4 =
                Some o ->
      prop o "type" = VStr "billing.").
Proof.
  intros s.
  destruct (next_type_is_a_string spy s 1 [Some "billing"] 0
              (default (bus0 s) (buses s !! 1)))
    as (Hnext & _ & Hprim & _ & Hempty & _).
  - ok_now.
  - path_now.
  - reflexivity.
  - split.
    { refine (Hnext 1 (OPlain (<["type" := VNum 7]> charged)) _ _);
        [reflexivity | discriminate]. }
    unfold tootSync, tootSyncWith.
    rewrite (Hprim (VNum 7) "7" (VStr "sync") [] VUndefined
               ltac:(discriminate) eq_refl).
    split; [reflexivity|]. split; [reflexivity|].
    set (props := envelope (VStr "") (VStr "sync") (VObj 2) (VFun 5)).
    set (arrived := <["type" := VStr "billing."]> props).
    rewrite (Hempty eq_refl (VStr "sync") [] (VFun 5) 4 arrived
               [OPlain arrived] ltac:(by right) ltac:(by right) eq_refl).
    split; [reflexivity|].
    intros o Ho. vm_compute in Ho. injection Ho as <-. reflexivity.
Defined.

(** C2 as stated fails twice.  With [tick] registered, the empty string
    as [mode] is not null and [_toot] does not fail: it emits in the
    registered mode.  And [toot('constructor')], a type nobody
    registered, with no mode, does not emit in mode [auto]: the envelope
    gets the mode [undefined] and [next] refuses it. *)
Lemma toot_mode_counterexample :
  (events (bus0 registered) !! "tick" = Some {| mode := VStr "sync" |}
   /\ VStr "" <> VNull
   /\ fst (_toot spy 0 (VStr "tick") (VStr "") (VObj 0) VUndefined
             (with_obj (OArray []) registered)) = Ret VUndefined)
  /\ (events (bus0 fresh) !! "constructor" = None
      /\ fst (toot spy 0 (VStr "constructor") [] fresh) =
         Throw (Error ("An event mode must be either " +:+ dq +:+ "auto"
                       +:+ dq +:+ ", asIs" +:+ dq +:+ ", " +:+ dq +:+ "sync"
                       +:+ dq +:+ " or " +:+ dq +:+ "async" +:+ dq))
      /\ (forall o, objs (snd (toot spy 0 (VStr "constructor") [] fresh)) !! 1 = Some o ->
          prop o "mode" = VUndefined)).
Proof.
  repeat split; try discriminate.
  intros o [= <-]. reflexivity.
Qed.

Lemma toot_resolves_mode_witness :
  _toot spy 0 (VStr "tick") (VStr "async") (VObj 0) VUndefined
    (with_obj (OArray []) registered) =
  (Throw (Error ("Event " +:+ dq +:+ "tick" +:+ dq +:+ " is a registered event"
                 +:+ "and shouldn't be tooted with a custom mode")),
   with_obj (OArray []) registered).
Proof.
  refine (proj1 (toot_resolves_mode spy 0 "tick" (VStr "async") (VObj 0)
                   VUndefined (with_obj (OArray []) registered)
                   (bus0 registered) _) {| mode := VStr "sync" |} _ _).
  - reflexivity.
  - reflexivity.
  - reflexivity.
Defined.

(** C3 as stated fails here: [prefix('')] is accepted, and an emission on
    the derived instance 1 hands the source the envelope itself, no copy
    (no object is allocated), with its type still [charged] and not
    [.charged]. *)
Lemma prefix_empty_counterexample :
  let s := submit charged [] (prefixed "") in
  fst (prefix 0 (VStr "") fresh) = Ret 1
  /\ source (default (new_Hooter VUndefined) (buses s !! 1)) = Some 0
  /\ next spy 1 (VObj 1) s =
     (Ret VUndefined, with_world [Delivered 0 (VObj 1)] s)
  /\ prop (OPlain charged) "type" = VStr "charged"
  /\ "charged" <> "" +:+ "." +:+ "charged".
Proof. repeat split. discriminate. Qed.

(** [prefix('billing')]: the source is handed object 2, a copy of the
    envelope with the type [billing.charged]; the envelope, object 1, is
    as it was. *)
Lemma prefix_derives_witness :
  let s := submit charged [] (prefixed "billing") in
  next spy 1 (VObj 1) s =
  next spy 0 (VObj 2)
    (with_obj (OPlain (<["type" := VStr "billing.charged"]> charged)) s)
  /\ world (snd (next spy 1 (VObj 1) s)) = [Delivered 0 (VObj 2)]
  /\ objs (snd (next spy 1 (VObj 1) s)) !! 1 = Some (OPlain charged).
Proof.
  intros s.
  destruct (proj2 (prefix_derives spy 0 "billing" fresh (bus0 fresh)
                     ltac:(wf_now) eq_refl))
    as (d & s1 & derived & Hprefix & _ & _ & _ & _ & _ & _ & Hnext).
  injection Hprefix as <- <-.
  destruct (Hnext s (default (new_Hooter VUndefined) (buses s !! 1)) 1 charged
              "charged"
              ltac:(wf_now) eq_refl eq_refl eq_refl eq_refl ltac:(passes_now))
    as [Hcopy _].
  destruct (Hcopy ltac:(discriminate)) as (Heq & _ & _ & _).
  split; [exact Heq|]. split; reflexivity.
Defined.

(** The hooked bus: after [unhook(0)] the hooks with id 0 are gone from
    the three stores, the second end hook (id 1) is still there. *)
Lemma unhook_removes_witness :
  exists s',
    unhook 0 0 hooked = (Ret VUndefined, s')
    /\ map HookStore.id (HookStore.hooks (hookStoreBefore (bus0 s'))) = []
    /\ map HookStore.id (HookStore.hooks (hookStore (bus0 s'))) = []
    /\ map HookStore.id (HookStore.hooks (hookStoreAfter (bus0 s'))) = [1]
    /\ unhook 0 0 s' = (Ret VUndefined, s').
Proof.
  destruct (unhook_removes 0 0 hooked (bus0 hooked) eq_refl)
    as (s' & self' & Hun & _ & _ & _ & Hagain).
  exists s'. split; [exact Hun|].
  assert (s' = snd (unhook (World:=list Effect) 0 0 hooked)) as ->
    by (by rewrite Hun).
  split; [reflexivity|]. split; [reflexivity|]. split; [reflexivity|].
  exact Hagain.
Defined.

(** C10 as stated fails here: with the empty string as the outer prefix,
    an event of type [charged] emitted on [prefix('').prefix('eu')]
    reaches instance 0 with the type [eu.charged], not [.eu.charged]. *)
Lemma prefix_empty_chain_counterexample :
  let s := submit charged [] (prefixed_twice "" "eu") in
  let r := next spy 2 (VObj 1) s in
  fst r = Ret VUndefined
  /\ world (snd r) = [Delivered 0 (VObj 2)]
  /\ (forall o, objs (snd r) !! 2 = Some o -> prop o "type" = VStr "eu.charged")
  /\ "eu.charged" <> "" +:+ "." +:+ "eu" +:+ "." +:+ "charged".
Proof.
  repeat split; try discriminate.
  intros o [= <-]. reflexivity.
Qed.

(** [prefix('billing').prefix('eu')]: instance 0 is handed object 3 of
    type [billing.eu.charged]. *)
Lemma prefix_composes_witness :
  let s := submit charged [] (prefixed_twice "billing" "eu") in
  let r := next spy 2 (VObj 1) s in
  world (snd r) = [Delivered 0 (VObj 3)]
  /\ (forall o, objs (snd r) !! 3 = Some o ->
      prop o "type" = VStr "billing.eu.charged").
Proof.
  intros s r.
  destruct (prefix_composes spy 0 "billing" "eu" fresh (bus0 fresh))
    as (d1 & s1 & d2 & s2 & D1 & D2 & H1 & H2 & _ & _ & _ & _ & _ & _ & _ & _
        & Hnext).
  - split; [wf_now|].
    intros [|i] b Hi; [|destruct i; discriminate].
    injection Hi as <-. repeat split.
  - reflexivity.
  - reflexivity.
  - discriminate.
  - discriminate.
  - injection H1 as <- <-. injection H2 as <- <-.
    destruct (Hnext s (default (bus0 s) (buses s !! 1))
                (default (bus0 s) (buses s !! 2)) (bus0 s) 1 charged "charged"
                ltac:(wf_now) eq_refl eq_refl eq_refl eq_refl eq_refl eq_refl
                eq_refl eq_refl eq_refl eq_refl ltac:(passes_now))
      as [Heq _].
    unfold r. rewrite Heq. split.
    + reflexivity.
    + intros o [= <-]. reflexivity.
Defined.

End Checks.

(** * Further properties of the bus *)

Section More.

Context {World : Type}.
Variable X : Externals World.

Implicit Types (s : State World) (self : Hooter) (props : gmap string Value).

(** ** Hooking *)

(** X1.  [hook], [hookStart] and [hookEnd] refuse, with a [TypeError]
    and the bus as it was, a first argument that is no string, whatever
    the second one is, and then a second argument that is no function.
    The call with the hook alone, [hook(fn)], is of the first kind: the
    three methods always hand three arguments to [_hook]. *)
Theorem hook_rejects this (eventType fn : Value) s :
  forall method,
    In method [hook (World:=World); hookStart; hookEnd] ->
    (typeof eventType <> "string" ->
     method this eventType fn s =
     (Throw (TypeError "An event type must be a string"), s))
    /\ (typeof eventType = "string" -> typeof fn <> "function" ->
        method this eventType fn s =
        (Throw (TypeError "A hook must be a function"), s)).
Proof.
  assert (forall phase,
    (typeof eventType <> "string" ->
     _hook this 3 eventType fn phase s =
     (Throw (TypeError "An event type must be a string"), s))
    /\ (typeof eventType = "string" -> typeof fn <> "function" ->
        _hook this 3 eventType fn phase s =
        (Throw (TypeError "A hook must be a function"), s))) as H.
  { intros phase. unfold _hook, Nat.ltb. cbn [Nat.leb Nat.eqb]. split.
    - intros Hty. apply String.eqb_neq in Hty as ->. reflexivity.
    - intros -> Hfn.
      change (negb ("string" =? "string")) with false. cbv iota.
      erewrite bind_Ret by reflexivity. cbv beta iota.
      apply String.eqb_neq in Hfn as ->. reflexivity. }
  intros method [<-|[<-|[<-|[]]]]; apply H.
Qed.

Lemma put_bus_elsewhere this b s :
  elsewhere_same this s (put_bus this b s).
Proof.
  repeat split; cbn [put_bus objs world buses].
  - apply length_insert.
  - intros r Hr. by apply list_lookup_insert_ne.
Qed.

Lemma elsewhere_same_refl this s : elsewhere_same this s s.
Proof. by repeat split. Qed.

(** X2.  The methods that change an instance change nothing else: the
    objects, the outside world and every other instance stay as they
    are, and the instance keeps its sequencing capability, operator,
    source and prefix.  A hooking method moreover leaves the registry
    and the two other stores alone, [unhook] the registry, and
    [register] the three stores. *)
Theorem mutators_are_local this s self :
  buses s !! this = Some self ->
  (forall eventType fn phase o s',
     _hook this 3 eventType fn phase s = (o, s') ->
     elsewhere_same this s s'
     /\ exists self', buses s' !! this = Some self'
        /\ same_identity self self' /\ events self' = events self
        /\ forall p, p <> phase -> store_of p self' = store_of p self)
  /\ (forall needle o s',
        unhook this needle s = (o, s') ->
        elsewhere_same this s s'
        /\ exists self', buses s' !! this = Some self'
           /\ same_identity self self' /\ events self' = events self)
  /\ (forall eventType m o s',
        register this eventType m s = (o, s') ->
        elsewhere_same this s s'
        /\ exists self', buses s' !! this = Some self'
           /\ same_identity self self'
           /\ forall p, store_of p self' = store_of p self).
Proof.
  intros Hb. pose proof (lookup_lt_Some _ _ _ Hb) as Hlt.
  assert (forall self', elsewhere_same this s (put_bus this self' s)
                        /\ buses (put_bus this self' s) !! this = Some self')
    as Hput.
  { intros self'. split; [apply put_bus_elsewhere | by apply put_bus_lookup]. }
  split; [|split].
  - intros eventType fn phase o s'. unfold _hook, Nat.ltb.
    cbn [Nat.leb Nat.eqb].
    destruct (negb (typeof eventType =? "string")).
    { intros [= <- <-]. split; [apply elsewhere_same_refl|].
      exists self. by repeat split. }
    erewrite bind_Ret by reflexivity. cbv beta iota.
    destruct (negb (typeof fn =? "function")).
    { intros [= <- <-]. split; [apply elsewhere_same_refl|].
      exists self. by repeat split. }
    erewrite bind_Ret by (by apply get_bus_at).
    destruct (HookStore.put eventType fn (store_of phase self))
      as [e|[handle st]].
    { intros [= <- <-]. split; [apply elsewhere_same_refl|].
      exists self. by repeat split. }
    erewrite bind_Ret by (by eapply set_bus_put).
    intros [= <- <-]. destruct (Hput (with_store phase st self)) as [H1 H2].
    split; [done|]. eexists. split; [done|].
    split; [by repeat split|]. split; [done|].
    intros p Hp. by destruct p, phase.
  - intros needle o s'. rewrite (unhook_at _ _ _ _ Hb). intros [= <- <-].
    destruct (Hput (unhooked needle self)) as [H1 H2].
    split; [done|]. eexists. split; [done|]. by repeat split.
  - intros eventType m o s' Hreg.
    assert (s' = s \/ exists ev, s' = put_bus this (with_events ev self) s)
      as [->|[ev ->]].
    { revert Hreg. unfold register.
      destruct eventType; try (intros [= <- <-]; by left).
      destruct (String.length s0 =? 0)%nat; [intros [= <- <-]; by left|].
      erewrite bind_Ret by (by apply get_bus_at).
      destruct (member_truthy _); [intros [= <- <-]; by left|].
      destruct (negb _); [intros [= <- <-]; by left|].
      erewrite bind_Ret by (by eapply set_bus_put).
      intros [= <- <-]. right. eauto. }
    + split; [apply elsewhere_same_refl|]. exists self. by repeat split.
    + destruct (Hput (with_events ev self)) as [H1 H2].
      split; [done|]. eexists. split; [done|]. by repeat split.
Qed.

(** ** Instances and their sources *)

Lemma lift_ok this op s : state_ok s -> state_ok (exec (lift this op) s).
Proof.
  intros Hs. destruct (buses s !! this) as [self|] eqn:Hb.
  - unfold exec. rewrite (lift_new _ op _ _ Hb). cbn [snd].
    apply state_ok_snoc; [done| |].
    + destruct (truthy op); repeat split; discriminate.
    + intros j [= <-]. by eapply lookup_lt_Some.
  - unfold exec, lift, bind, get_bus. by rewrite Hb.
Qed.

(** X3.  What the methods keep.  In every state built from no instance at
    all by [new Hooter], [lift], [prefix], the hooking methods, [unhook]
    and [register], the source of an instance is an older instance, each
    store has the matcher and the order its constructor gave it, and
    only an instance with a source has a prefix. *)
Theorem methods_keep_state_ok (w : World) :
  state_ok {| buses := []; objs := []; world := w |}
  /\ forall s,
       state_ok s ->
       (forall settings, state_ok (exec (constructor settings) s))
       /\ (forall this op, state_ok (exec (lift this op) s))
       /\ (forall this p, state_ok (exec (prefix this p) s))
       /\ (forall this eventType fn phase,
             state_ok (exec (_hook this 3 eventType fn phase) s))
       /\ (forall this needle, state_ok (exec (unhook this needle) s))
       /\ (forall this eventType m,
             state_ok (exec (register this eventType m) s)).
Proof.
  split; [apply state_ok_empty|].
  intros s Hs.
  split; [intros; by apply constructor_ok|].
  split; [intros; by apply lift_ok|].
  split; [intros; by apply prefix_ok|].
  split; [intros; by apply _hook_ok|].
  split; [intros; by apply unhook_ok|].
  intros; by apply register_ok.
Qed.

(** X4.  Delegation ends.  When every source is an older instance, as
    the methods keep it, following [source] from any instance arrives,
    in one way only, at an instance without a source, which is the
    instance itself or an older one. *)
Theorem every_instance_has_a_root s d :
  wf s -> d < length (buses s) ->
  exists ps root,
    path s d ps root /\ root <= d
    /\ forall ps' root', path s d ps' root' -> ps' = ps /\ root' = root.
Proof.
  intros Hwf. induction d as [d IH] using lt_wf_ind. intros Hlt.
  destruct (lookup_lt_is_Some_2 _ _ Hlt) as [b Hb].
  destruct (source b) as [src|] eqn:Hsrc.
  - pose proof (Hwf _ _ _ Hb Hsrc) as Hold.
    destruct (IH src Hold ltac:(lia)) as (ps & root & Hpath & Hle & _).
    exists (_prefix b :: ps), root.
    assert (path s d (_prefix b :: ps) root) as Hd by (by eapply path_step).
    split; [done|]. split; [lia|]. by apply path_unique.
  - exists [], d.
    assert (path s d [] d) as Hd by (by eapply path_root).
    split; [done|]. split; [lia|]. by apply path_unique.
Qed.

(** ** What an emission leaves alone *)

Lemma extends_refl s : extends s s.
Proof. split; [done|]. exists []. by rewrite app_nil_r. Qed.

Lemma extends_trans s1 s2 s3 : extends s1 s2 -> extends s2 s3 -> extends s1 s3.
Proof.
  intros [Hb1 [m1 Ho1]] [Hb2 [m2 Ho2]]. split; [congruence|].
  exists (m1 ++ m2). by rewrite Ho2, Ho1, app_assoc.
Qed.

Lemma grows_ret {A} (a : A) : grows (W:=World) (ret a).
Proof. intros s o s' [= _ <-]. apply extends_refl. Qed.

Lemma grows_throw {A} e : grows (W:=World) (A:=A) (throw e).
Proof. intros s o s' [= _ <-]. apply extends_refl. Qed.

Lemma grows_bind {A B} (m : M World A) (k : A -> M World B) :
  grows m -> (forall a, grows (k a)) -> grows (bind m k).
Proof.
  intros Hm Hk s o s'. unfold bind.
  destruct (m s) as [[a| |] s1] eqn:E.
  - intros Hk'. eapply extends_trans; [by eapply Hm | by eapply Hk].
  - intros [= _ <-]. by eapply Hm.
  - intros [= _ <-]. by eapply Hm.
Qed.

Lemma grows_get_prop v k : grows (W:=World) (get_prop v k).
Proof.
  intros s o s' E. apply get_prop_state in E as ->. apply extends_refl.
Qed.

Lemma grows_get_bus r : grows (W:=World) (get_bus r).
Proof.
  intros s o s'. unfold get_bus.
  destruct (buses s !! r); intros [= _ <-]; apply extends_refl.
Qed.

Lemma grows_alloc ob : grows (W:=World) (alloc ob).
Proof.
  intros s o s' [= _ <-]. split; [done|]. by exists [ob].
Qed.

Lemma grows_spread v : grows (W:=World) (spread v).
Proof.
  intros s o s'. unfold spread. destruct v; try (intros [= _ <-]; apply extends_refl).
  destruct (objs s !! l) as [[|]|]; intros [= _ <-]; apply extends_refl.
Qed.

Lemma grows_apply_prefix self event ty : grows (W:=World) (apply_prefix self event ty).
Proof.
  unfold apply_prefix. destruct (prefix_truthy _); [|apply grows_ret].
  intros s o s'.
  destruct event as [| | | | | | | |l];
    try (unfold bind, Object_assign_fresh; intros [= _ <-]; apply extends_refl).
  destruct (objs s !! l) as [[props|elems]|] eqn:Hl.
  - rewrite (copy_with_type l props _ s Hl). intros [= _ <-].
    split; [done|]. by eexists [_].
  - unfold bind, Object_assign_fresh. rewrite Hl.
    intros [= _ <-]. apply extends_refl.
  - unfold bind, Object_assign_fresh. rewrite Hl.
    intros [= _ <-]. apply extends_refl.
Qed.

Lemma grows_on_state {A} (f : State World -> Result A * State World) :
  (forall s, extends s (snd (f s))) -> grows (on_state f).
Proof.
  intros Hkeep s o s'. unfold on_state. specialize (Hkeep s).
  destruct (f s) as [r s1]. by intros [= _ <-].
Qed.

Lemma grows_wrong {A} : grows (W:=World) (A:=A) wrong.
Proof. intros s o s' [= _ <-]. apply extends_refl. Qed.

Lemma grows_collect this event : grows (W:=World) (collect this event).
Proof.
  unfold collect.
  apply grows_bind; [apply grows_get_bus|]. intros self.
  apply grows_bind; [apply grows_get_prop|]. intros type.
  destruct type; try apply grows_wrong.
  apply grows_bind; [apply grows_get_prop|]. intros cb. apply grows_ret.
Qed.

Lemma grows_invoke this event handlers :
  outside_keeps X -> grows (invoke X this event handlers).
Proof.
  intros (_ & Hcompose & Hcall & _). unfold invoke.
  destruct (length handlers =? 0)%nat; [apply grows_ret|].
  apply grows_bind; [apply grows_get_prop|]. intros mode.
  apply grows_bind; [apply grows_get_bus|]. intros self.
  apply grows_bind; [by apply grows_on_state|]. intros composed.
  apply grows_bind; [apply grows_get_prop|]. intros args.
  apply grows_bind; [apply grows_spread|]. intros argv.
  by apply grows_on_state.
Qed.

Lemma grows_dispatch this event :
  outside_keeps X -> grows (dispatch X this event).
Proof.
  intros Hkeep. unfold dispatch.
  apply grows_bind; [apply grows_on_state; apply Hkeep|]. intros _.
  apply grows_bind; [apply grows_collect|]. intros handlers.
  by apply grows_invoke.
Qed.

Lemma grows_next_body source_next this event :
  outside_keeps X ->
  (forall src ev, grows (source_next src ev)) ->
  grows (next_body X source_next this event).
Proof.
  intros Hkeep Hnext. unfold next_body.
  destruct (negb (truthy event) || negb (typeof event =? "object"));
    [apply grows_throw|].
  apply grows_bind; [apply grows_get_prop|]. intros type.
  destruct type; try apply grows_throw.
  apply grows_bind; [apply grows_get_prop|]. intros mode.
  destruct (negb (includes MODES mode)); [apply grows_throw|].
  apply grows_bind; [apply grows_get_prop|]. intros cb.
  destruct (truthy cb && negb (typeof cb =? "function")); [apply grows_throw|].
  apply grows_bind; [apply grows_get_bus|]. intros self.
  apply grows_bind; [apply grows_apply_prefix|]. intros ev.
  destruct (source self); [apply Hnext|].
  by apply grows_dispatch.
Qed.

Lemma grows_next_rec fuel this event :
  outside_keeps X -> grows (next_rec X fuel this event).
Proof.
  intros Hkeep. revert this event.
  induction fuel as [|fuel IH]; intros this event.
  - intros s o s' [= _ <-]. apply extends_refl.
  - cbn [next_rec]. by apply grows_next_body.
Qed.

Lemma grows_next this event : outside_keeps X -> grows (next X this event).
Proof. intros Hkeep s o s'. unfold next. by apply grows_next_rec. Qed.

Lemma grows_createEvent type mode args cb :
  grows (W:=World) (createEvent type mode args cb).
Proof.
  unfold createEvent.
  apply grows_bind; [destruct (truthy args); [apply grows_ret | apply grows_alloc]|].
  intros a. intros s o s'.
  unfold bind, alloc. cbn [objs buses world].
  destruct (truthy cb).
  - unfold set_prop. cbn [objs buses world].
    rewrite lookup_app_r by lia. rewrite Nat.sub_diag. cbn [lookup list_lookup].
    unfold ret. intros [= _ <-]. split; [done|]. cbn [objs].
    eexists [_]. rewrite <- (Nat.add_0_r (length (objs s))) at 1.
    by rewrite insert_app_r.
  - unfold ret. intros [= _ <-]. split; [done|]. by eexists [_].
Qed.

Lemma grows_ToString v : outside_keeps X -> grows (ToString X v).
Proof.
  intros (_ & _ & _ & Hstr). unfold ToString.
  destruct (ToString_primitive v); [apply grows_ret|].
  by apply grows_on_state.
Qed.

(** X5.  The bus itself writes to nothing it did not make.  If the code
    it calls into (the subscribers, the sequencing capability, the
    handlers, a [toString]) leaves the instances and the existing
    objects alone, then after [next], after [_toot] and after each of
    the shorthands, whether they return or throw, every instance has the
    hooks, the registry, the source and the prefix it had, and every
    object that existed has the properties it had: the rest array, the
    envelope and the prefixed copies are freshly allocated objects, and
    the envelope that was handed in is not written to. *)
Theorem emission_only_allocates :
  outside_keeps X ->
  (forall this event, grows (next X this event))
  /\ (forall this eventType m args cb, grows (_toot X this eventType m args cb))
  /\ (forall this eventType m args cb, grows (toot_as X this eventType m args cb)).
Proof.
  intros Hkeep.
  assert (forall this eventType m args cb,
            grows (_toot X this eventType m args cb)) as Htoot.
  { intros this eventType m args cb. unfold _toot.
    apply grows_bind; [by apply grows_ToString|]. intros key.
    apply grows_bind; [apply grows_get_bus|]. intros self.
    apply grows_bind.
    - destruct (member_truthy _); [destruct (truthy m)|];
        try apply grows_ret.
      apply grows_bind; [by apply grows_ToString|]. intros shown.
      apply grows_throw.
    - intros mv. apply grows_bind; [apply grows_createEvent|].
      intros event. by apply grows_next. }
  split; [intros; by apply grows_next|]. split; [done|].
  intros this eventType m args cb. unfold toot_as.
  apply grows_bind; [apply grows_alloc|]. intros a. apply Htoot.
Qed.

(** ** Emission along a delegation path *)

(** X6.  Emission through any delegation path.  On an instance [d] whose
    path of sources ends at [root], an accepted envelope of type [ty]
    is dispatched by [root] and by nobody else.  The event that [root]
    delivers to its subscribers has the type [retype ps ty], each
    non-empty prefix on the path put in front with a dot, the prefix of
    [d] innermost, and apart from the type the properties of the
    envelope.  Each instance with a non-empty prefix made one copy; an
    instance with no prefix or the empty one passed on what it got; no
    object that existed was written to.  What a subscriber throws is
    thrown; otherwise the handlers are the hooks of [root] as delivery
    has left it, for the type and with the callback that the event has
    by then. *)
Theorem next_along_path s d ps root l props ty l' arrived copies :
  state_ok s ->
  path s d ps root ->
  objs s !! l = Some (OPlain props) ->
  passes props ty ->
  forwarded ps l props ty (length (objs s)) = (l', arrived, copies) ->
  let s' := with_objs copies s in
  next X d (VObj l) s = dispatch X root (VObj l') s'
  /\ objs s' !! l' = Some (OPlain arrived)
  /\ prop (OPlain arrived) "type" = VStr (retype ps ty)
  /\ (forall k, k <> "type" -> arrived !! k = props !! k)
  /\ length copies = length (List.filter prefix_truthy ps)
  /\ (forall i o, objs s !! i = Some o -> objs s' !! i = Some o)
  /\ (forall e s1,
        Subject_next X root (VObj l') s' = (Raised e, s1) ->
        next X d (VObj l) s = (Throw e, s1))
  /\ (forall s1 rb1 o1 ty1,
        Subject_next X root (VObj l') s' = (Returned tt, s1) ->
        buses s1 !! root = Some rb1 ->
        objs s1 !! l' = Some o1 ->
        prop o1 "type" = VStr ty1 ->
        next X d (VObj l) s =
        invoke X root (VObj l')
          (handlers_for rb1 (VObj l') ty1 (prop o1 "cb")) s1).
Proof.
  intros [Hwf Hok] Hpath Hl Hpass Hfw s'.
  destruct (path_root_is_root _ _ _ _ Hpath) as (rb & Hrb & Hsrc).
  assert (next X d (VObj l) s = dispatch X root (VObj l') s') as Hnext.
  { eapply (next_along_path_gen X s d ps root Hpath rb Hrb); try done.
    apply bus_ok_no_prefix; [by eapply Hok | done]. }
  destruct (forwarded_arrives ps l props ty (objs s) l' arrived copies Hl
              (proj1 Hpass) Hfw) as (H1 & H2 & H3 & H4 & H5).
  split; [done|]. split; [done|]. split; [done|]. split; [done|].
  split; [done|]. split; [done|]. split.
  - intros e s1 Hn. rewrite Hnext. by apply dispatch_raised.
  - intros s1 rb1 o1 ty1 Hn Hb1 Hl1 Hty1. rewrite Hnext.
    by eapply dispatch_delivered.
Qed.

(** ** The shorthands *)

(** X7.  The shorthands, for a type that the instance has not registered
    and that is no inherited name.  With the mode forced by the
    shorthand ([auto] when it forces none) and a callback that is falsy
    or a function, the call allocates the rest array and the envelope
    and ends in the dispatch by the root of the instance's path: the
    event that the root delivers to its subscribers has the prefixed
    type, the forced mode, the callback if it is truthy, and as [args]
    the very array of the arguments given.  Only the registry of the
    instance itself is looked at, not that of its sources. *)
Theorem toot_along_path s d ps root self ty m args cb l' arrived copies :
  state_ok s ->
  path s d ps root ->
  buses s !! d = Some self ->
  events self !! ty = None -> inherited ty = false ->
  mode_ok m -> callback_ok cb ->
  let a := length (objs s) in
  let props := envelope (VStr ty) (mode_or_auto m) (VObj a) cb in
  let s' := with_objs (OArray args :: OPlain props :: copies) s in
  forwarded ps (S a) props ty (S (S a)) = (l', arrived, copies) ->
  toot_as X d (VStr ty) m args cb s = dispatch X root (VObj l') s'
  /\ objs s' !! l' = Some (OPlain arrived)
  /\ prop (OPlain arrived) "type" = VStr (retype ps ty)
  /\ prop (OPlain arrived) "mode" = mode_or_auto m
  /\ prop (OPlain arrived) "cb" = (if truthy cb then cb else VUndefined)
  /\ prop_of_args (VObj l') s' = Some (a, args).
Proof.
  intros Hs Hpath Hd Hev Hinh Hm Hcb a props s' Hfw.
  destruct (path_root_is_root _ _ _ _ Hpath) as (rb & Hrb & _).
  split.
  - eapply (toot_as_along_path X s d ps root self rb); try done.
    + left. by repeat split.
    + by apply mode_or_auto_ok.
  - destruct (envelope_props (VStr ty) (mode_or_auto m) (VObj a) cb)
      as (Hpt & Hpm & Hpa & Hpc). fold props in Hpt, Hpm, Hpa, Hpc.
    destruct (forwarded_arrives ps (S a) props ty
                (objs s ++ [OArray args; OPlain props]) l' arrived copies)
      as (H1 & H2 & H3 & _ & H5).
    { rewrite lookup_app_r by (fold a; lia). fold a.
      replace (S a - a) with 1 by lia. reflexivity. }
    { done. }
    { rewrite length_app. cbn [length]. fold a.
      replace (a + 2) with (S (S a)) by lia. done. }
    assert (objs s' = (objs s ++ [OArray args; OPlain props]) ++ copies) as Hs'.
    { cbn [s' with_objs objs]. by rewrite <- app_assoc. }
    rewrite Hs'. split; [done|]. split; [done|].
    assert (forall k, k <> "type" ->
              prop (OPlain arrived) k = prop (OPlain props) k) as Hk.
    { intros k Hne. unfold prop. by rewrite (H3 k Hne). }
    split; [by rewrite Hk|]. split; [by rewrite Hk|].
    unfold prop_of_args. rewrite Hs', H1, (Hk "args") by done. rewrite Hpa.
    rewrite (H5 a (OArray args)); [done|].
    rewrite lookup_app_r by (fold a; lia). fold a.
    by rewrite Nat.sub_diag.
Qed.

(** ** Registration and the shorthands *)

Lemma toot_as_custom_mode this ty forced args cb s self :
  buses s !! this = Some self ->
  member_truthy (events_get (events self) ty) = true ->
  truthy forced = true ->
  toot_as X this (VStr ty) forced args cb s =
  (Throw (Error ("Event " +:+ dq +:+ ty +:+ dq +:+ " is a registered event"
                 +:+ "and shouldn't be tooted with a custom mode")),
   with_obj (OArray args) s).
Proof.
  intros Hb Hreg Hforced. unfold toot_as.
  erewrite bind_Ret by reflexivity. unfold _toot.
  erewrite bind_Ret by reflexivity.
  erewrite bind_Ret by (by apply get_bus_at).
  by rewrite Hreg, Hforced.
Qed.

(** X8.  Registration, then emission, on an instance without a source.
    Once [register(ty, mode)] has stored the mode, every other entry of
    the registry being as it was, the shorthands that force no mode
    build an envelope for [ty] in the registered mode and hand it to
    the dispatch of the instance, and every shorthand that forces one
    throws an [Error], also when it forces the registered mode itself;
    nothing is delivered then. *)
Theorem register_then_toot this ty mv s self :
  state_ok s ->
  buses s !! this = Some self ->
  source self = None ->
  ty <> "" -> events self !! ty = None -> inherited ty = false ->
  includes MODES mv = true ->
  let self1 := with_events (<[ty := {| mode := mv |}]> (events self)) self in
  let s1 := put_bus this self1 s in
  register this (VStr ty) mv s = (Ret VUndefined, s1)
  /\ (forall ty', ty' <> ty -> events self1 !! ty' = events self !! ty')
  /\ (forall forced args cb,
        truthy forced = true ->
        toot_as X this (VStr ty) forced args cb s1 =
        (Throw (Error ("Event " +:+ dq +:+ ty +:+ dq +:+ " is a registered event"
                       +:+ "and shouldn't be tooted with a custom mode")),
         with_obj (OArray args) s1))
  /\ (forall m args cb,
        truthy m = false -> callback_ok cb ->
        let a := length (objs s) in
        let event := VObj (S a) in
        toot_as X this (VStr ty) m args cb s1 =
        dispatch X this event
          (with_objs [OArray args; OPlain (envelope (VStr ty) mv (VObj a) cb)] s1)).
Proof.
  intros Hs Hb Hsrc Hty Hev Hinh Hmv self1 s1.
  pose proof (lookup_lt_Some _ _ _ Hb) as Hlt.
  assert (buses s1 !! this = Some self1) as Hb1 by (by apply put_bus_lookup).
  assert (events self1 !! ty = Some {| mode := mv |}) as Hev1.
  { cbn [self1 with_events events]. apply lookup_insert_eq. }
  assert (state_ok s1) as Hs1.
  { eapply state_ok_put; eauto. apply with_events_ok. by eapply Hs. }
  split; [by apply register_stores|].
  split; [intros ty' Hne; cbn [self1 with_events events];
          by apply lookup_insert_ne|].
  split.
  - intros forced args cb Hforced.
    apply (toot_as_custom_mode this ty forced args cb s1 self1 Hb1); [|done].
    unfold events_get. by rewrite Hev1.
  - intros m args cb Hm Hcb a event.
    apply (toot_as_along_path X s1 this [] this self1 self1 ty m mv args cb
             (S a) (envelope (VStr ty) mv (VObj a) cb) []); try done.
    + by eapply path_root.
    + right. eauto.
Qed.

(** X9.  The names an object literal inherits.  For a type such as
    [constructor] or [toString] that the instance has not registered,
    the registry lookup is truthy all the same: [register] throws
    "already registered", a shorthand that forces a mode throws
    "is a registered event", and a shorthand that forces none builds an
    envelope whose mode is [undefined], which [next] refuses.  Whatever
    the bus, nothing is stored and nothing is delivered: such an event
    can only be emitted by handing an envelope to [next]. *)
Theorem inherited_names_are_taken this ty s self :
  buses s !! this = Some self ->
  events self !! ty = None -> inherited ty = true ->
  (forall m,
     register this (VStr ty) m s =
     (Throw (Error ("Event " +:+ dq +:+ ty +:+ dq +:+ " is already registered")), s))
  /\ (forall forced args cb,
        truthy forced = true ->
        toot_as X this (VStr ty) forced args cb s =
        (Throw (Error ("Event " +:+ dq +:+ ty +:+ dq +:+ " is a registered event"
                       +:+ "and shouldn't be tooted with a custom mode")),
         with_obj (OArray args) s))
  /\ (forall m args cb,
        truthy m = false ->
        toot_as X this (VStr ty) m args cb s =
        (Throw (Error ("An event mode must be either " +:+ dq +:+ "auto"
                       +:+ dq +:+ ", asIs" +:+ dq +:+ ", " +:+ dq +:+ "sync"
                       +:+ dq +:+ " or " +:+ dq +:+ "async" +:+ dq)),
         with_objs [OArray args;
                    OPlain (envelope (VStr ty) VUndefined
                              (VObj (length (objs s))) cb)] s)).
Proof.
  intros Hb Hev Hinh.
  assert (member_truthy (events_get (events self) ty) = true) as Hreg.
  { unfold events_get. by rewrite Hev, Hinh. }
  split; [intros m; by eapply register_inherited|].
  split; [intros forced args cb Hf; by eapply toot_as_custom_mode|].
  intros m args cb Hm. unfold toot_as.
  erewrite bind_Ret by reflexivity. fold (with_obj (OArray args) s).
  rewrite (_toot_inherited X this ty m _ _ (with_obj (OArray args) s) self)
    by done.
  erewrite bind_Ret by (by apply createEvent_at).
  assert (length (objs (with_obj (OArray args) s)) = S (length (objs s))) as ->.
  { cbn [with_obj objs]. rewrite length_app. cbn [length]. lia. }
  set (props := envelope (VStr ty) VUndefined (VObj (length (objs s))) cb).
  rewrite with_obj_as_objs.
  set (s2 := with_objs _ s).
  destruct (envelope_props (VStr ty) VUndefined (VObj (length (objs s))) cb)
    as (Hpt & Hpm & _). fold props in Hpt, Hpm.
  rewrite next_unfold by (cbn [s2 with_objs buses]; by eapply lookup_lt_Some).
  apply (next_body_bad_mode X _ this (S (length (objs s))) (OPlain props) s2).
  - cbn [s2 with_objs objs]. rewrite lookup_app_r by lia.
    replace (S (length (objs s)) - length (objs s)) with 1 by lia. reflexivity.
  - by rewrite Hpt.
  - by rewrite Hpm.
Qed.

(** X10.  What a shorthand does with a bad mode or a bad callback, for a
    type that is neither registered nor an inherited name.  [_toot]
    checks neither: it builds the envelope, and the checks of [next]
    refuse it, a mode outside the four with the [Error] about modes, a
    truthy callback that is no function with the [TypeError] about
    callbacks.  The rest array and the envelope have been allocated by
    then; nothing has been delivered and no hook has run. *)
Theorem toot_bad_arguments this ty m args cb s self :
  buses s !! this = Some self ->
  events self !! ty = None -> inherited ty = false ->
  let props := envelope (VStr ty) (mode_or_auto m) (VObj (length (objs s))) cb in
  let s' := with_objs [OArray args; OPlain props] s in
  (includes MODES (mode_or_auto m) = false ->
   toot_as X this (VStr ty) m args cb s =
   (Throw (Error ("An event mode must be either " +:+ dq +:+ "auto"
                  +:+ dq +:+ ", asIs" +:+ dq +:+ ", " +:+ dq +:+ "sync"
                  +:+ dq +:+ " or " +:+ dq +:+ "async" +:+ dq)), s'))
  /\ (includes MODES (mode_or_auto m) = true ->
      truthy cb = true -> typeof cb <> "function" ->
      toot_as X this (VStr ty) m args cb s =
      (Throw (TypeError "An event callback must be a function"), s')).
Proof.
  intros Hb Hev Hinh props s'.
  assert (toot_as X this (VStr ty) m args cb s =
          next X this (VObj (S (length (objs s)))) s') as ->.
  { unfold toot_as. erewrite bind_Ret by reflexivity.
    fold (with_obj (OArray args) s).
    rewrite (_toot_unregistered X this ty m _ _ (with_obj (OArray args) s) self)
      by done.
    fold (mode_or_auto m).
    erewrite bind_Ret by (by apply createEvent_at).
    assert (length (objs (with_obj (OArray args) s)) = S (length (objs s))) as ->.
    { cbn [with_obj objs]. rewrite length_app. cbn [length]. lia. }
    fold props. by rewrite with_obj_as_objs. }
  assert (objs s' !! S (length (objs s)) = Some (OPlain props)) as Hl.
  { cbn [s' with_objs objs]. rewrite lookup_app_r by lia.
    replace (S (length (objs s)) - length (objs s)) with 1 by lia. reflexivity. }
  destruct (envelope_props (VStr ty) (mode_or_auto m) (VObj (length (objs s))) cb)
    as (Hpt & Hpm & _ & Hpc). fold props in Hpt, Hpm, Hpc.
  rewrite next_unfold by (cbn [s' with_objs buses]; by eapply lookup_lt_Some).
  split.
  - intros Hm. apply (next_body_bad_mode X _ this _ (OPlain props) s' Hl).
    + by rewrite Hpt.
    + by rewrite Hpm.
  - intros Hm Hcb Hfn.
    apply (next_body_bad_cb X _ this _ (OPlain props) s' Hl).
    + by rewrite Hpt.
    + by rewrite Hpm.
    + by rewrite Hpc, Hcb.
    + by rewrite Hpc, Hcb.
Qed.

(** ** An envelope without arguments *)

(** X11.  [next] does not check [args].  On an instance without a
    source an envelope passes the four checks whatever its [args] is.
    [event.args] is read last, once the subscribers have been told and
    the sequencing capability has composed the handlers (there is at
    least one): if it cannot spread by then (it is missing, or no array
    and no string), [next] throws a [TypeError] in the state that the
    composition has left, and the composed function is never called. *)
Theorem next_unspreadable_args this l props ty s self :
  objs s !! l = Some (OPlain props) ->
  passes props ty ->
  buses s !! this = Some self ->
  source self = None ->
  prefix_truthy (_prefix self) = false ->
  let event := VObj l in
  forall s1 self1 o1 ty1 composed s2 o2,
    Subject_next X this event s = (Returned tt, s1) ->
    buses s1 !! this = Some self1 ->
    objs s1 !! l = Some o1 ->
    prop o1 "type" = VStr ty1 ->
    let handlers := handlers_for self1 event ty1 (prop o1 "cb") in
    handlers <> [] ->
    corrie_compose X (corrie self1) (entry_of (prop o1 "mode")) handlers s1 =
    (Returned composed, s2) ->
    objs s2 !! l = Some o2 ->
    not_iterable s2 (prop o2 "args") ->
    exists msg, next X this event s = (Throw (TypeError msg), s2).
Proof.
  intros Hl Hp Hb Hsrc Hpre event s1 self1 o1 ty1 composed s2 o2
    Hn Hb1 Hl1 Hty1 handlers Hne Hc Hl2 Hargs. subst event.
  exists (match prop o2 "args" with
          | VObj _ => "object is not iterable"
          | _ => "value is not iterable"
          end).
  rewrite (next_local X _ _ _ _ _ _ Hl Hp Hb Hsrc Hpre).
  rewrite (dispatch_delivered X _ _ _ _ _ _ _ Hn Hb1 Hl1 Hty1).
  fold handlers.
  rewrite (invoke_handlers X _ _ _ _ _ _ Hne Hb1 Hl1).
  erewrite bind_Ret by (by apply on_state_Returned).
  erewrite bind_Ret by (by apply get_prop_obj).
  erewrite bind_Throw; [reflexivity|].
  unfold spread, not_iterable in *.
  destruct (prop o2 "args"); try done.
  destruct Hargs as [p Hp']. by rewrite Hp'.
Qed.

(** ** A new bus *)

(** X12.  [new Hooter(settings)] and the first emission.  The new bus is
    one more instance, without source, prefix, hooks or registrations,
    whose sequencing capability is [corrie(settings)] for truthy
    settings and [corrie] otherwise.  A shorthand on it, for a type that
    is no inherited name, builds the envelope and hands it to the
    dispatch of the new bus.  If nobody has hooked by the time the
    subscribers have run, then with no callback in the envelope [next]
    returns [undefined] with no call of the capability, and with one
    the capability composes the callback alone, as it is, not bound to
    the event. *)
Theorem new_bus_emission settings ty m args cb s :
  inherited ty = false -> mode_ok m -> callback_ok cb ->
  let this := length (buses s) in
  let self := new_Hooter settings in
  let s0 := {| buses := buses s ++ [self]; objs := objs s; world := world s |} in
  let event := VObj (S (length (objs s))) in
  let props := envelope (VStr ty) (mode_or_auto m) (VObj (length (objs s))) cb in
  let s' := with_objs [OArray args; OPlain props] s0 in
  constructor settings s = (Ret this, s0)
  /\ corrie self =
     (if truthy settings then CorrieWith settings else CorrieDefault)
  /\ source self = None /\ _prefix self = None /\ events self = ∅
  /\ (forall p, HookStore.hooks (store_of p self) = [])
  /\ toot_as X this (VStr ty) m args cb s0 = dispatch X this event s'
  /\ forall s1 self1 o1 ty1,
       Subject_next X this event s' = (Returned tt, s1) ->
       buses s1 !! this = Some self1 ->
       objs s1 !! S (length (objs s)) = Some o1 ->
       prop o1 "type" = VStr ty1 ->
       (forall p, HookStore.hooks (store_of p self1) = []) ->
       (truthy (prop o1 "cb") = false ->
        toot_as X this (VStr ty) m args cb s0 = (Ret VUndefined, s1))
       /\ (truthy (prop o1 "cb") = true ->
           toot_as X this (VStr ty) m args cb s0 =
           (composed <-
              on_state (corrie_compose X (corrie self1)
                          (entry_of (prop o1 "mode")) [prop o1 "cb"]);;;
            args <- get_prop event "args";;;
            argv <- spread args;;;
            on_state (call_function X composed argv)) s1).
Proof.
  intros Hinh Hm Hcb this self s0 event props s'.
  assert (buses s0 !! this = Some self) as Hb.
  { cbn [s0 buses]. rewrite lookup_app_r by (unfold this; lia).
    unfold this. by rewrite Nat.sub_diag. }
  assert (toot_as X this (VStr ty) m args cb s0 = dispatch X this event s')
    as Htoot.
  { unfold toot_as. erewrite bind_Ret by reflexivity.
    fold (with_obj (OArray args) s0).
    rewrite (_toot_unregistered X this ty m _ _ (with_obj (OArray args) s0) self)
      by done.
    fold (mode_or_auto m).
    erewrite bind_Ret by (by apply createEvent_at).
    assert (length (objs (with_obj (OArray args) s0)) = S (length (objs s)))
      as ->.
    { cbn [with_obj s0 objs]. rewrite length_app. cbn [length]. lia. }
    fold props. rewrite with_obj_as_objs. fold s'.
    assert (objs s' !! S (length (objs s)) = Some (OPlain props)) as Hl.
    { cbn [s' with_objs s0 objs]. rewrite lookup_app_r by lia.
      replace (S (length (objs s)) - length (objs s)) with 1 by lia.
      reflexivity. }
    assert (passes props ty) as Hp.
    { apply passes_envelope_cb; [by apply mode_or_auto_ok | done]. }
    exact (next_local X this _ props ty s' self Hl Hp Hb eq_refl eq_refl). }
  split; [reflexivity|]. split; [reflexivity|].
  split; [reflexivity|]. split; [reflexivity|]. split; [reflexivity|].
  split; [by intros []|]. split; [exact Htoot|].
  intros s1 self1 o1 ty1 Hn Hb1 Hl1 Hty1 Hnone. rewrite Htoot.
  subst event.
  rewrite (dispatch_delivered X _ _ _ _ _ _ _ Hn Hb1 Hl1 Hty1).
  assert (handlers_for self1 (VObj (S (length (objs s)))) ty1 (prop o1 "cb") =
          if truthy (prop o1 "cb") then [prop o1 "cb"] else []) as ->.
  { unfold handlers_for, HookStore.get.
    pose proof (Hnone Before) as H1. pose proof (Hnone Main) as H2.
    pose proof (Hnone After) as H3. cbn [store_of] in H1, H2, H3.
    rewrite H1, H2, H3.
    cbn [List.filter rev app map].
    by destruct (HookStore.reversed _), (HookStore.reversed _),
      (HookStore.reversed _), (truthy _). }
  split; intros ->.
  - reflexivity.
  - by eapply invoke_handlers.
Qed.


(** ** Lifting *)

(** X13.  [lift(operator)] adds one instance and touches nothing else.
    The new instance has the current one as its source, no prefix, the
    operator if it is truthy, and, being built by [new this.constructor()]
    without settings, the default sequencing capability, an empty
    registry and empty stores: hooks, registrations and settings are not
    handed down.  Whatever state comes later, as long as the new
    instance keeps its source and has no prefix, an emission of an
    accepted envelope on it is the emission of that very envelope on
    the source: the operator plays no part in [next]. *)
Theorem lift_derives this op s self :
  wf s ->
  buses s !! this = Some self ->
  exists d s1 derived,
    lift this op s = (Ret d, s1)
    /\ buses s !! d = None
    /\ buses s1 !! d = Some derived
    /\ source derived = Some this
    /\ _prefix derived = None
    /\ operator derived = (if truthy op then op else VUndefined)
    /\ corrie derived = CorrieDefault
    /\ events derived = ∅
    /\ (forall p, HookStore.hooks (store_of p derived) = [])
    /\ wf s1
    /\ (forall r b, buses s !! r = Some b -> buses s1 !! r = Some b)
    /\ objs s1 = objs s /\ world s1 = world s
    /\ forall s' derived' l props ty,
         wf s' ->
         buses s' !! d = Some derived' ->
         source derived' = Some this -> _prefix derived' = None ->
         objs s' !! l = Some (OPlain props) -> passes props ty ->
         next X d (VObj l) s' = next X this (VObj l) s'.
Proof.
  intros Hwf Hb.
  eexists _, _, _. split; [by eapply lift_new|].
  cbn [buses objs world]. split; [apply lookup_ge_None; lia|].
  split; [rewrite lookup_app_r by lia; by rewrite Nat.sub_diag|].
  split; [reflexivity|].
  split; [by destruct (truthy op)|].
  split; [by destruct (truthy op)|].
  split; [by destruct (truthy op)|].
  split; [by destruct (truthy op)|].
  split; [intros p; by destruct (truthy op), p|].
  split.
  { apply wf_snoc; [done|]. intros j [= <-]. by eapply lookup_lt_Some. }
  split; [intros r b Hr; by apply lookup_app_l_Some|].
  split; [done|]. split; [done|].
  intros s' derived' l props ty Hwf' Hd Hsrc Hpre Hl Hpass.
  eapply next_forward_plain; try done. by rewrite Hpre.
Qed.

End More.

(** ** Terminal signals *)

Section Signals.

Context {World : Type}.
Variable T : Terminals World.

Implicit Types (s : State World).

Lemma error_rec_along_path s d ps root err :
  wf s -> path s d ps root ->
  forall fuel, d < fuel ->
    error_rec T fuel d err s =
    (on_state (Subject_error T root err);;; ret VUndefined) s.
Proof.
  intros Hwf. induction 1 as [r b Hb Hsrc|d b src ps root Hb Hsrc Hpath IH];
    intros [|fuel] Hlt; try lia; cbn [error_rec].
  - erewrite bind_Ret by (by apply get_bus_at). by rewrite Hsrc.
  - erewrite bind_Ret by (by apply get_bus_at). rewrite Hsrc.
    pose proof (Hwf _ _ _ Hb Hsrc). apply IH. lia.
Qed.

Lemma complete_rec_along_path s d ps root :
  wf s -> path s d ps root ->
  forall fuel, d < fuel ->
    complete_rec T fuel d s =
    (on_state (Subject_complete T root);;; ret VUndefined) s.
Proof.
  intros Hwf. induction 1 as [r b Hb Hsrc|d b src ps root Hb Hsrc Hpath IH];
    intros [|fuel] Hlt; try lia; cbn [complete_rec].
  - erewrite bind_Ret by (by apply get_bus_at). by rewrite Hsrc.
  - erewrite bind_Ret by (by apply get_bus_at). rewrite Hsrc.
    pose proof (Hwf _ _ _ Hb Hsrc). apply IH. lia.
Qed.

Lemma path_start_exists s d ps root :
  path s d ps root -> d < length (buses s).
Proof. destruct 1; by eapply lookup_lt_Some. Qed.

(** X14.  [error] and [complete] on any instance are those of the root
    of its path: the [Subject] of the instance at the end of the chain
    of sources is the one that is signalled, once, none of the
    instances on the way is, and [undefined] comes back unless that
    [Subject] throws. *)
Theorem terminal_signals_reach_the_root s d ps root :
  wf s -> path s d ps root ->
  (forall err,
     error T d err s =
     (on_state (Subject_error T root err);;; ret VUndefined) s)
  /\ complete T d s =
     (on_state (Subject_complete T root);;; ret VUndefined) s.
Proof.
  intros Hwf Hpath. pose proof (path_start_exists _ _ _ _ Hpath). split.
  - intros err. unfold error. by eapply error_rec_along_path.
  - unfold complete. by eapply complete_rec_along_path.
Qed.

End Signals.

(** ** The private hooking method *)

(** X15.  [_hook] needs its three arguments.  Called with fewer it
    throws a [TypeError], whatever the arguments are, and leaves the bus
    as it was: with one argument the first branch takes it for the hook
    and [**] for the pattern, and the call then ends, like the call with
    two arguments, at [hookStore.put] on a store that was not passed. *)
Theorem hook_store_is_required {World} this n (eventType fn : Value) phase
    (s : State World) :
  n < 3 ->
  exists msg,
    _hook this n eventType fn phase s = (Throw (TypeError msg), s).
Proof.
  intros Hn. destruct n as [|[|[|n]]]; [| | |lia]; unfold _hook, Nat.ltb;
    cbn [Nat.leb Nat.eqb].
  - by eexists.
  - erewrite bind_Ret by reflexivity. cbv beta iota.
    destruct (negb (typeof eventType =? "function")); by eexists.
  - destruct (negb (typeof eventType =? "string")); [by eexists|].
    erewrite bind_Ret by reflexivity. cbv beta iota.
    destruct (negb (typeof fn =? "function")); by eexists.
Qed.

(** ** Instances of the further properties *)

Module MoreChecks.
Import Scenario.

Local Ltac sources_older :=
  let r := fresh "r" in
  let Hr := fresh "Hr" in
  let Hs := fresh "Hs" in
  intros r ? ? Hr Hs;
  repeat (destruct r as [|r];
          [vm_compute in Hr; injection Hr as <-; vm_compute in Hs;
           first [discriminate | injection Hs as <-; lia] |]);
  vm_compute in Hr; discriminate.

Local Ltac all_ok :=
  let r := fresh "r" in
  let Hr := fresh "Hr" in
  split; [sources_older|];
  intros r ? Hr;
  repeat (destruct r as [|r];
          [injection Hr as <-; repeat split; discriminate |]);
  discriminate.

Local Ltac steps :=
  repeat (eapply path_step_with; [reflexivity | reflexivity | reflexivity |]);
  eapply path_root; reflexivity.

Local Ltac passes_here :=
  split; [reflexivity | split; [reflexivity | first [left; reflexivity | right; reflexivity]]].

(** [hook(fn)]: the function is taken for the event type. *)
Lemma hook_rejects_witness :
  hook 0 (VFun 11) VUndefined fresh =
  (Throw (TypeError "An event type must be a string"), fresh).
Proof.
  refine (proj1 (hook_rejects 0 (VFun 11) VUndefined fresh hook _) _).
  - left. reflexivity.
  - discriminate.
Defined.

(** [unhook] on the hooked bus changes instance 0 and nothing else. *)
Lemma mutators_are_local_witness :
  elsewhere_same 0 hooked (snd (unhook 0 0 hooked)).
Proof.
  refine (proj1 (proj1 (proj2 (mutators_are_local 0 hooked (bus0 hooked) _))
                   0 (fst (unhook 0 0 hooked)) (snd (unhook 0 0 hooked)) _)).
  - reflexivity.
  - reflexivity.
Defined.

Lemma methods_keep_state_ok_witness : state_ok (prefixed "billing").
Proof.
  destruct (methods_keep_state_ok (World:=list Effect) []) as [Hempty Hkeep].
  destruct (Hkeep empty_state Hempty) as (Hnew & _).
  destruct (Hkeep fresh (Hnew VUndefined)) as (_ & _ & Hprefix & _).
  exact (Hprefix 0 (VStr "billing")).
Defined.

(** From the second prefixed instance the way leads to instance 0. *)
Lemma every_instance_has_a_root_witness :
  exists ps, path (prefixed_twice "billing" "eu") 2 ps 0.
Proof.
  destruct (every_instance_has_a_root (prefixed_twice "billing" "eu") 2
              ltac:(sources_older) ltac:(vm_compute; lia))
    as (ps & root & Hpath & _ & Huniq).
  assert (path (prefixed_twice "billing" "eu") 2 [Some "eu"; Some "billing"] 0)
    as Hp.
  { steps. }
  destruct (Huniq _ _ Hp) as [_ Hr]. subst root. by exists ps.
Defined.

Lemma spy_outside_keeps : outside_keeps spy.
Proof.
  repeat split; try (exists []; cbn; by rewrite app_nil_r).
Qed.

(** With the spies, the emission on the hooked bus leaves the instances
    as they are. *)
Lemma emission_only_allocates_witness :
  let s := submit user_created [VNum 42] hooked in
  buses (snd (next spy 0 (VObj 1) s)) = buses s.
Proof.
  intros s.
  destruct (proj1 (emission_only_allocates spy spy_outside_keeps) 0 (VObj 1) s
              (fst (next spy 0 (VObj 1) s)) (snd (next spy 0 (VObj 1) s)))
    as [Hb _].
  - by destruct (next spy 0 (VObj 1) s).
  - exact Hb.
Defined.

(** [prefix('').prefix('eu')]: one copy, of type [eu.charged]. *)
Lemma next_along_path_witness :
  let s := submit charged [] (prefixed_twice "" "eu") in
  world (snd (next spy 2 (VObj 1) s)) = [Delivered 0 (VObj 2)]
  /\ retype [Some "eu"; Some ""] "charged" = "eu.charged".
Proof.
  intros s.
  destruct (next_along_path spy s 2 [Some "eu"; Some ""] 0 1 charged
              "charged" 2 (<["type" := VStr "eu.charged"]> charged)
              [OPlain (<["type" := VStr "eu.charged"]> charged)])
    as (Hnext & _).
  - all_ok.
  - steps.
  - reflexivity.
  - passes_here.
  - reflexivity.
  - rewrite Hnext. split; reflexivity.
Defined.

(** [prefix('billing')] and [tootSync('charged', 42)]: instance 0 is told
    of an event of type [billing.charged], in mode [sync], with the
    argument 42. *)
Lemma toot_along_path_witness :
  let r := tootSync spy 1 (VStr "charged") [VNum 42] (prefixed "billing") in
  world (snd r) = [Delivered 0 (VObj 2)]
  /\ prop_of_args (VObj 2) (snd r) = Some (0, [VNum 42])
  /\ (forall o, objs (snd r) !! 2 = Some o ->
      prop o "type" = VStr "billing.charged" /\ prop o "mode" = VStr "sync").
Proof.
  intros r.
  pose (props := envelope (VStr "charged") (VStr "sync") (VObj 0) VUndefined).
  pose (arrived := <["type" := VStr "billing.charged"]> props).
  destruct (toot_along_path spy (prefixed "billing") 1 [Some "billing"] 0
              (default (bus0 fresh) (buses (prefixed "billing") !! 1))
              "charged" (VStr "sync") [VNum 42] VUndefined
              2 arrived [OPlain arrived])
    as (Hnext & _).
  - all_ok.
  - steps.
  - reflexivity.
  - reflexivity.
  - reflexivity.
  - right. reflexivity.
  - left. reflexivity.
  - reflexivity.
  - unfold r, tootSync. rewrite Hnext.
    split; [reflexivity|]. split; [reflexivity|].
    intros o' Ho. vm_compute in Ho. injection Ho as <-.
    split; reflexivity.
Defined.

(** Once [tick] is registered as [sync], [tootSync('tick')] throws. *)
Lemma register_then_toot_witness :
  exists e, fst (tootSync spy 0 (VStr "tick") [] registered) = Throw (Error e).
Proof.
  destruct (register_then_toot spy 0 "tick" (VStr "sync") fresh (bus0 fresh))
    as (Hreg & _ & Hforced & _).
  - all_ok.
  - reflexivity.
  - reflexivity.
  - discriminate.
  - reflexivity.
  - reflexivity.
  - reflexivity.
  - assert (registered = snd (register (World:=list Effect) 0 (VStr "tick")
                                (VStr "sync") fresh)) as -> by reflexivity.
    rewrite Hreg. cbn [snd]. unfold tootSync.
    rewrite (Hforced (VStr "sync") [] VUndefined eq_refl). by eexists.
Defined.

(** [toString] on a new bus. *)
Lemma inherited_names_are_taken_witness :
  (exists e, fst (register 0 (VStr "toString") (VStr "sync") fresh) = Throw (Error e))
  /\ (exists e, fst (toot spy 0 (VStr "toString") [] fresh) = Throw (Error e))
  /\ world (snd (toot spy 0 (VStr "toString") [] fresh)) = [].
Proof.
  destruct (inherited_names_are_taken spy 0 "toString" fresh (bus0 fresh)
              eq_refl eq_refl eq_refl) as (Hreg & _ & Htoot).
  split; [rewrite Hreg; by eexists|].
  unfold toot. rewrite (Htoot VNull [] VUndefined eq_refl).
  split; [by eexists | reflexivity].
Defined.

(** [tootWith('tick', 5)]: the callback is refused, nothing is delivered. *)
Lemma toot_bad_arguments_witness :
  fst (tootWith spy 0 (VStr "tick") (VNum 5) [] fresh) =
  Throw (TypeError "An event callback must be a function")
  /\ world (snd (tootWith spy 0 (VStr "tick") (VNum 5) [] fresh)) = [].
Proof.
  destruct (toot_bad_arguments spy 0 "tick" VNull [] (VNum 5) fresh (bus0 fresh)
              eq_refl eq_refl eq_refl) as [_ Hcb].
  unfold tootWith. rewrite (Hcb eq_refl eq_refl ltac:(discriminate)).
  split; reflexivity.
Defined.

(** An envelope without [args] on the hooked bus: the subscribers are
    told, the handlers are composed, and nothing is called. *)
Lemma next_unspreadable_args_witness :
  let props := envelope (VStr "user.created") (VStr "sync") VUndefined VUndefined in
  let s := submit props [] hooked in
  (exists msg, fst (next spy 0 (VObj 1) s) = Throw (TypeError msg))
  /\ world (snd (next spy 0 (VObj 1) s)) =
     [Delivered 0 (VObj 1);
      Composed CorrieDefault (EntryMember (VStr "sync"))
        [VBound (VFun 10) (VObj 1); VBound (VFun 11) (VObj 1);
         VBound (VFun 13) (VObj 1); VBound (VFun 12) (VObj 1)]].
Proof.
  intros props s.
  set (s1 := snd (Subject_next spy 0 (VObj 1) s)).
  set (s2 := snd (corrie_compose spy CorrieDefault (EntryMember (VStr "sync"))
                    [VBound (VFun 10) (VObj 1); VBound (VFun 11) (VObj 1);
                     VBound (VFun 13) (VObj 1); VBound (VFun 12) (VObj 1)] s1)).
  destruct (next_unspreadable_args spy 0 1 props "user.created" s (bus0 s)
              eq_refl ltac:(passes_here) eq_refl eq_refl eq_refl
              s1 (bus0 s1) (OPlain props) "user.created" composed_fn s2
              (OPlain props) eq_refl eq_refl eq_refl eq_refl
              ltac:(discriminate) eq_refl eq_refl I)
    as [msg Hnext].
  rewrite Hnext. split; [by eexists | reflexivity].
Defined.

(** [lift] with an operator, then an emission on the new instance. *)
Lemma lift_derives_witness :
  exists s1,
    lift 0 (VFun 7) fresh = (Ret 1, s1)
    /\ world (snd (next spy 1 (VObj 1) (submit charged [] s1))) =
       [Delivered 0 (VObj 1)].
Proof.
  destruct (lift_derives spy 0 (VFun 7) fresh (bus0 fresh)
              ltac:(sources_older) eq_refl)
    as (d & s1 & derived & Hlift & _).
  exists s1. split.
  - assert (d = 1) as Hd.
    { pose proof (f_equal fst Hlift) as H. vm_compute in H. by injection H. }
    subst d. exact Hlift.
  - assert (s1 = snd (lift (World:=list Effect) 0 (VFun 7) fresh)) as ->
      by (by rewrite Hlift).
    reflexivity.
Defined.

(** A new bus with settings: [tootWith] has the configured capability
    compose the callback alone. *)
Lemma new_bus_emission_witness :
  let r := tootWith spy 0 (VStr "tick") (VFun 5) [VNum 1]
             (exec (constructor (VObj 9)) empty_state) in
  world (snd r) =
  [Delivered 0 (VObj 1);
   Composed (CorrieWith (VObj 9)) EntryItself [VFun 5];
   Called composed_fn [VNum 1]].
Proof.
  intros r.
  destruct (new_bus_emission spy (VObj 9) "tick" VNull [VNum 1] (VFun 5)
              empty_state eq_refl ltac:(by left) ltac:(by right))
    as (_ & _ & _ & _ & _ & _ & _ & Hafter).
  set (s0 := exec (constructor (VObj 9)) empty_state) in *.
  set (props := envelope (VStr "tick") (VStr "auto") (VObj 0) (VFun 5)).
  set (s1 := snd (Subject_next spy 0 (VObj 1)
                    (with_objs [OArray [VNum 1]; OPlain props] s0))).
  destruct (Hafter s1 (bus0 s1) (OPlain props) "tick" eq_refl eq_refl eq_refl
              eq_refl) as [_ Hcb].
  { by intros []. }
  unfold r, tootWith.
  etransitivity;
    [exact (f_equal (fun x => world (snd x)) (Hcb eq_refl)) | reflexivity].
Defined.

(** [_hook(fn)] with the function alone. *)
Lemma hook_store_is_required_witness :
  exists msg,
    _hook 0 1 (VFun 11) VUndefined Main fresh = (Throw (TypeError msg), fresh).
Proof.
  apply (hook_store_is_required 0 1 (VFun 11) VUndefined Main fresh). lia.
Defined.

(** [error] and [complete] on a prefixed instance signal instance 0. *)
Lemma terminal_signals_reach_the_root_witness :
  let s : State (list Signal) :=
    exec (prefix 0 (VStr "billing"))
      (exec (constructor VUndefined) {| buses := []; objs := []; world := [] |}) in
  world (snd (error signal_spy 1 (VStr "boom") s)) = [Errored 0 (VStr "boom")]
  /\ world (snd (complete signal_spy 1 s)) = [Completed 0].
Proof.
  intros s.
  destruct (terminal_signals_reach_the_root signal_spy s 1 [Some "billing"] 0)
    as [Herr Hcomp].
  - sources_older.
  - steps.
  - rewrite Herr, Hcomp. split; reflexivity.
Defined.

End MoreChecks.
